(** * The workflow instance engine

    A shallow embedding of the [Engine] durable object: its in-memory
    fields, the durable store it is bound to, its public methods, and the
    interleaving of calls around the one point where [init] waits for the
    user workflow. *)

From stdpp Require Import base gmap strings list fin_maps sorting.
From Stdlib Require Import ZArith Lia Ascii.

Local Open Scope Z_scope.

(** ** Values of the host language *)

(** [unknown] values: event payloads, workflow results, thrown values.
    [JsError] is an instance of [Error]; [JsEnumMember] stands for a
    member of an enum whose numeric value the engine never inspects. *)
#[warnings="-register-all"]
Inductive JsValue :=
| JsUndefined
| JsNull
| JsBool (b : bool)
| JsNumber (n : Z)
| JsString (s : string)
| JsError (name message : string)
| JsEnumMember (enum member : string)
| JsObject (fields : list (string * JsValue)).

(** Property lookup on an object literal. *)
Fixpoint assoc (key : string) (fields : list (string * JsValue)) : option JsValue :=
  match fields with
  | [] => None
  | (k, v) :: rest => if decide (k = key) then Some v else assoc key rest
  end.

Definition js_get (key : string) (v : JsValue) : option JsValue :=
  match v with
  | JsObject fields => assoc key fields
  | _ => None
  end.

(** ** Data model *)

(** Modelled from the spec: the [InstanceStatus] enum is declared in
    [./instance]; its members are the five statuses of the spec's status
    enum. *)
Inductive InstanceStatus := Queued | Running | Errored | Terminated | Complete.

(** Modelled from the spec: the [InstanceEvent] enum is declared in
    [./instance]; these are the four kinds the engine itself writes. *)
Inductive InstanceEvent :=
| WORKFLOW_QUEUED
| WORKFLOW_START
| WORKFLOW_SUCCESS
| WORKFLOW_FAILURE.

#[global] Instance InstanceStatus_eq_dec : EqDecision InstanceStatus.
Proof. solve_decision. Defined.

#[global] Instance InstanceEvent_eq_dec : EqDecision InstanceEvent.
Proof. solve_decision. Defined.

(** Modelled from the spec: [InstanceTrigger.API], a member of an enum
    declared in [./instance]; the engine only stores it. *)
Definition InstanceTrigger_API : JsValue := JsEnumMember "InstanceTrigger" "API".

(** Modelled from the spec: the key constant of the singleton metadata
    slot, declared in [./instance]; no property depends on its spelling. *)
Definition INSTANCE_METADATA : string := "INSTANCE_METADATA".

Module DatabaseWorkflow.
Record t := {
  name : string;
  id : string;
  created_on : string;
  modified_on : string;
  script_name : string;
  class_name : option string;
  triggered_on : option string
}.
End DatabaseWorkflow.

Module DatabaseVersion.
Record t := {
  id : string;
  class_name : string;
  created_on : string;
  modified_on : string;
  workflow_id : string;
  mutable_pipeline_id : string
}.
End DatabaseVersion.

Module DatabaseInstance.
Record t := {
  name : string;
  created_on : string;
  modified_on : string;
  workflow_id : string;
  version_id : string;
  status : InstanceStatus;
  started_on : option string;
  ended_on : option string
}.
End DatabaseInstance.

Module WorkflowEvent.
Record t := {
  payload : JsValue;
  timestamp : Z
}.
End WorkflowEvent.

Module InstanceMetadata.
Record t := {
  accountId : Z;
  workflow : DatabaseWorkflow.t;
  version : DatabaseVersion.t;
  instance : DatabaseInstance.t;
  event : WorkflowEvent.t
}.
End InstanceMetadata.

(** One element of [Engine.logs], as [writeLog] pushes it. *)
Module LogEntry.
Record t := {
  event : InstanceEvent;
  group : option string;
  target : option string;
  metadata : list (string * JsValue)
}.
End LogEntry.

(** ** The durable store

    [ctx.storage]: the key/value slots, the rows of the [priority_queue]
    table, and the one wake-up the alarm scheduler holds. *)

Module Row.
Record t := {
  id : Z;
  created_on : Z;
  target_timestamp : Z;
  action : Z;
  entryType : Z;
  hash : string
}.

(** The columns named by the table's [UNIQUE] clause. *)
Definition key (r : t) : Z * Z * string := (action r, entryType r, hash r).

(** The table's [CHECK (action IN (0, 1))]. *)
Definition check (r : t) : bool := bool_decide (action r = 0 ∨ action r = 1).
End Row.

Record Storage := {
  kv : gmap string InstanceMetadata.t;
  priority_queue : list Row.t;
  alarm : option Z
}.

(** *** SQL statements against [priority_queue]

    The schema is the one the constructor creates; a statement that would
    break [CHECK], [UNIQUE] or the primary key is refused and leaves the
    table as it was. *)
Module Sql.
Definition keys (t : list Row.t) : list (Z * Z * string) := Row.key <$> t.
Definition ids (t : list Row.t) : list Z := Row.id <$> t.

(** The rowid an [INSERT] without [id] receives: one past the largest. *)
Definition next_id (t : list Row.t) : Z := 1 + foldr Z.max 0 (ids t).

Definition admissible (r : Row.t) (t : list Row.t) : bool :=
  Row.check r
  && bool_decide (Row.key r ∉ keys t)
  && bool_decide (Row.id r ∉ ids t).

(** [INSERT INTO priority_queue (...) VALUES (...)]: [None] is the
    constraint error. *)
Definition insert (r : Row.t) (t : list Row.t) : option (list Row.t) :=
  if admissible r t then Some (t ++ [r]) else None.

(** [INSERT OR IGNORE]: a refused row is skipped silently. *)
Definition insert_or_ignore (r : Row.t) (t : list Row.t) : list Row.t :=
  default t (insert r t).

(** [DELETE FROM priority_queue WHERE doomed]. *)
Definition delete (doomed : Row.t → bool) (t : list Row.t) : list Row.t :=
  filter (λ r, doomed r = false) t.

(** The constraints as a property of the stored rows. *)
Definition well_formed (t : list Row.t) : Prop :=
  NoDup (keys t) ∧ NoDup (ids t) ∧ Forall (λ r, Row.check r = true) t.
End Sql.

(** ** The time priority queue *)

(** Modelled from the spec: the [TimePriorityQueue] class lives in
    [lib/timePriorityQueue], outside the engine's file. It is bound to the
    arguments of the [init] call that constructed it, and its schedule is
    the [priority_queue] table of the store. A cancellation reaches the
    table as a delete-row insert or a row removal; both are statements of
    [Sql]. *)
Module TimePriorityQueue.
Record t := { bound : InstanceMetadata.t }.

Definition ADD : Z := 1.
Definition DELETE : Z := 0.

Definition due (now : Z) (r : Row.t) : bool :=
  bool_decide (Row.target_timestamp r ≤ now).

(** Drain order: [target_timestamp] ascending, ties by row id. *)
Definition before (a b : Row.t) : Prop :=
  Row.target_timestamp a < Row.target_timestamp b
  ∨ (Row.target_timestamp a = Row.target_timestamp b ∧ Row.id a ≤ Row.id b).

#[global] Instance before_dec a b : Decision (before a b).
Proof. unfold before. apply _. Defined.

(** Modelled from the spec: [enqueue] inserts an add-row; a row with the
    same key makes it a no-op, never an error. *)
Definition enqueue (now entryType : Z) (hash : string) (targetTimestamp : Z)
    (s : Storage) : Storage :=
  let t := priority_queue s in
  let r := {| Row.id := Sql.next_id t; Row.created_on := now;
              Row.target_timestamp := targetTimestamp; Row.action := ADD;
              Row.entryType := entryType; Row.hash := hash |} in
  {| kv := kv s; priority_queue := Sql.insert_or_ignore r t; alarm := alarm s |}.

(** Modelled from the spec: [popPastEntries] removes and returns every
    entry with [target_timestamp <= now], in drain order. *)
Definition popPastEntries (now : Z) (s : Storage) : list Row.t * Storage :=
  let t := priority_queue s in
  (merge_sort before (filter (λ r, due now r = true) t),
   {| kv := kv s; priority_queue := Sql.delete (due now) t; alarm := alarm s |}).

Definition min_timestamp (t : list Row.t) : option Z :=
  match Row.target_timestamp <$> t with
  | [] => None
  | x :: xs => Some (foldr Z.min x xs)
  end.

(** Modelled from the spec: [handleNextAlarm] requests one wake-up at the
    least remaining timestamp, or cancels the wake-up when nothing
    remains. *)
Definition handleNextAlarm (s : Storage) : Storage :=
  {| kv := kv s; priority_queue := priority_queue s;
     alarm := min_timestamp (priority_queue s) |}.
End TimePriorityQueue.

(** ** The engine object *)

(** Modelled from the spec: [GracePeriodSemaphore] is declared in
    [lib/gracePeriodSemaphore]; the engine only constructs one from the
    timeout constant and never calls it. *)
Record GracePeriodSemaphore := { timeoutMs : Z }.

(** The in-memory fields of [class Engine]. *)
Record Engine := {
  logs : list LogEntry.t;
  status : InstanceStatus;
  isRunning : bool;
  accountId : option Z;
  instanceId : option string;
  workflowName : option string;
  timeoutHandler : GracePeriodSemaphore;
  priorityQueue : option TimePriorityQueue.t
}.

(** What a method call leaves behind outside the object, in order. *)
Inductive Effect :=
| EvQueueNew (bound : InstanceMetadata.t)
| EvPopPastEntries (popped : list Row.t)
| EvHandleNextAlarm (armed : option Z)
| EvStorageGet (key : string)
| EvStoragePut (key : string) (value : InstanceMetadata.t)
| EvTxBegin
| EvTxCommit
| EvSetStatus (st : InstanceStatus)
| EvRun (event : WorkflowEvent.t)
| EvConsoleLog (args : list JsValue).

(** The object, the store behind [this.ctx], the wall clock, and the
    history of effects. *)
Record World := {
  this : Engine;
  ctx : Storage;
  now : Z;
  history : list Effect
}.

Definition with_this (f : Engine → Engine) (w : World) : World :=
  {| this := f (this w); ctx := ctx w; now := now w; history := history w |}.

Definition with_ctx (f : Storage → Storage) (w : World) : World :=
  {| this := this w; ctx := f (ctx w); now := now w; history := history w |}.

Definition record (e : Effect) (w : World) : World :=
  {| this := this w; ctx := ctx w; now := now w; history := history w ++ [e] |}.

(** *** Asynchronous methods

    A method either finishes (normally or by throwing) or stops at
    [await target.run(...)] with the rest of its body as a continuation;
    the continuation receives how the user workflow settled and the world
    as it is by then. The other awaits of the class are on its own
    methods and on the store; a durable object admits no other call while
    one of its storage operations is pending, so those awaits are steps of
    one uninterrupted run, and transactions take effect in the order they
    were issued. *)
Inductive Completion (A : Type) :=
| Normal (a : A)
| Throw (err : JsValue).
Arguments Normal {A} a.
Arguments Throw {A} err.

Inductive Outcome :=
| Resolved (v : JsValue)
| Rejected (err : JsValue).

Inductive Task (A : Type) :=
| Ret (c : Completion A) (w : World)
| Await (event : WorkflowEvent.t) (w : World) (k : Outcome → World → Task A).
Arguments Ret {A} c w.
Arguments Await {A} event w k.

Definition M (A : Type) : Type := World → Task A.

Fixpoint task_bind {A B : Type} (f : A → M B) (t : Task A) : Task B :=
  match t with
  | Ret (Normal a) w => f a w
  | Ret (Throw e) w => Ret (Throw e) w
  | Await ev w k => Await ev w (λ o w', task_bind f (k o w'))
  end.

(** [try { body } catch (err) { handler }] *)
Fixpoint task_catch {A : Type} (handler : JsValue → M A) (t : Task A) : Task A :=
  match t with
  | Ret (Normal a) w => Ret (Normal a) w
  | Ret (Throw e) w => handler e w
  | Await ev w k => Await ev w (λ o w', task_catch handler (k o w'))
  end.

(** [void promise]: the result, thrown or not, is dropped. *)
Fixpoint task_void {A : Type} (t : Task A) : Task unit :=
  match t with
  | Ret _ w => Ret (Normal tt) w
  | Await ev w k => Await ev w (λ o w', task_void (k o w'))
  end.

#[global] Instance M_ret : MRet M := λ A a w, Ret (Normal a) w.
#[global] Instance M_bind : MBind M := λ A B f m w, task_bind f (m w).

Definition throw {A : Type} (e : JsValue) : M A := λ w, Ret (Throw e) w.
Definition try_catch {A : Type} (body : M A) (handler : JsValue → M A) : M A :=
  λ w, task_catch handler (body w).
Definition void {A : Type} (m : M A) : M unit := λ w, task_void (m w).

Definition get {A : Type} (f : World → A) : M A := λ w, Ret (Normal (f w)) w.
Definition modify (f : World → World) : M unit := λ w, Ret (Normal tt) (f w).
Definition emit (e : Effect) : M unit := modify (record e).

(** Field updates of the object. *)
Definition set_logs (v : list LogEntry.t) (e : Engine) : Engine :=
  {| logs := v; status := status e; isRunning := isRunning e;
     accountId := accountId e; instanceId := instanceId e;
     workflowName := workflowName e; timeoutHandler := timeoutHandler e;
     priorityQueue := priorityQueue e |}.
Definition set_status (v : InstanceStatus) (e : Engine) : Engine :=
  {| logs := logs e; status := v; isRunning := isRunning e;
     accountId := accountId e; instanceId := instanceId e;
     workflowName := workflowName e; timeoutHandler := timeoutHandler e;
     priorityQueue := priorityQueue e |}.
Definition set_isRunning (v : bool) (e : Engine) : Engine :=
  {| logs := logs e; status := status e; isRunning := v;
     accountId := accountId e; instanceId := instanceId e;
     workflowName := workflowName e; timeoutHandler := timeoutHandler e;
     priorityQueue := priorityQueue e |}.
Definition set_identity (a : Z) (i n : string) (e : Engine) : Engine :=
  {| logs := logs e; status := status e; isRunning := isRunning e;
     accountId := Some a; instanceId := Some i;
     workflowName := Some n; timeoutHandler := timeoutHandler e;
     priorityQueue := priorityQueue e |}.
Definition set_priorityQueue (v : option TimePriorityQueue.t) (e : Engine) : Engine :=
  {| logs := logs e; status := status e; isRunning := isRunning e;
     accountId := accountId e; instanceId := instanceId e;
     workflowName := workflowName e; timeoutHandler := timeoutHandler e;
     priorityQueue := v |}.

(** *** The collaborators, as the engine calls them *)

(** [ctx.storage.get(key)] *)
Definition storage_get (key : string) : M (option InstanceMetadata.t) :=
  emit (EvStorageGet key) ;; get (λ w, kv (ctx w) !! key).

(** [ctx.storage.put(key, value)] *)
Definition storage_put (key : string) (value : InstanceMetadata.t) : M unit :=
  modify (with_ctx (λ s, {| kv := <[key := value]> (kv s);
                            priority_queue := priority_queue s;
                            alarm := alarm s |})) ;;
  emit (EvStoragePut key value).

(** [ctx.storage.transaction(body)]: the body runs between the begin and
    the commit; a throwing body leaves without committing. *)
Definition transaction {A : Type} (body : M A) : M A :=
  emit EvTxBegin ;; r ← body; emit EvTxCommit ;; mret r.

(** [env.USER_WORKFLOW.run(event, stubStep)]: the call is issued, and the
    method waits for the workflow to settle. *)
Definition target_run (event : WorkflowEvent.t) : M JsValue :=
  λ w, Await event (record (EvRun event) w)
         (λ o w', match o with
                  | Resolved v => Ret (Normal v) w'
                  | Rejected e => Ret (Throw e) w'
                  end).

Definition console_log (args : list JsValue) : M unit := emit (EvConsoleLog args).

(** [new TimePriorityQueue(ctx, {...})], stored in [this.priorityQueue]. *)
Definition new_TimePriorityQueue (bound : InstanceMetadata.t) : M unit :=
  modify (with_this (set_priorityQueue (Some {| TimePriorityQueue.bound := bound |}))) ;;
  emit (EvQueueNew bound).

Definition popPastEntries : M (list Row.t) :=
  λ w, let popped := TimePriorityQueue.popPastEntries (now w) (ctx w) in
       Ret (Normal popped.1)
         (record (EvPopPastEntries popped.1) (with_ctx (λ _, popped.2) w)).

Definition handleNextAlarm : M unit :=
  λ w, let s := TimePriorityQueue.handleNextAlarm (ctx w) in
       Ret (Normal tt) (record (EvHandleNextAlarm (alarm s)) (with_ctx (λ _, s) w)).

(** *** The class *)

(** [constructor]: the table is created if it does not exist, so rows
    already stored stay; every in-memory field starts from its
    initialiser. *)
Definition constructor (ENGINE_TIMEOUT : Z) (clock : Z) (state : Storage) : World :=
  {| this := {| logs := []; status := Queued; isRunning := false;
                accountId := None; instanceId := None; workflowName := None;
                timeoutHandler := {| timeoutMs := ENGINE_TIMEOUT |};
                priorityQueue := None |};
     ctx := state; now := clock; history := [] |}.

Definition writeLog (event : InstanceEvent) (group target : option string)
    (metadata : list (string * JsValue)) : M unit :=
  modify (with_this (λ e,
    set_logs (logs e ++ [ {| LogEntry.event := event; LogEntry.group := group;
                             LogEntry.target := target;
                             LogEntry.metadata := metadata |} ]) e)).

Definition readLogsFromStep (cacheKey : string) : list LogEntry.t := [].

Module InstanceLogsResponse.
Record t := { logs : list LogEntry.t }.
End InstanceLogsResponse.

Definition readLogs : M InstanceLogsResponse.t :=
  get (λ w, {| InstanceLogsResponse.logs := logs (this w) |}).

Definition getStatus (accountId : Z) (instanceId : string) : M InstanceStatus :=
  get (λ w, status (this w)).

Definition setStatus (accountId : Z) (instanceId : string) (status : InstanceStatus) : M unit :=
  modify (with_this (set_status status)) ;; emit (EvSetStatus status).

Definition abort (reason : string) : M unit := mret tt.

Definition userTriggeredTerminate : M unit := mret tt.

(** What [init] returns when it reaches its last statement. *)
Module InitResult.
Record t := { id : string }.
End InitResult.

(** The [catch] block's normalisation of the thrown value. *)
Definition normalize_error (err : JsValue) : JsValue :=
  match err with
  | JsError name message =>
      JsObject [("message", JsString message); ("name", JsString name)]
  | _ => JsObject [("name", JsString "Error"); ("message", err)]
  end.

(** [init]; a bare [return] yields [None] (the caller sees [undefined]). *)
Definition init (accountId : Z) (workflow : DatabaseWorkflow.t)
    (version : DatabaseVersion.t) (instance : DatabaseInstance.t)
    (event : WorkflowEvent.t) : M (option InitResult.t) :=
  let instanceMetadata :=
    {| InstanceMetadata.accountId := accountId;
       InstanceMetadata.workflow := workflow;
       InstanceMetadata.version := version;
       InstanceMetadata.instance := instance;
       InstanceMetadata.event := event |} in
  queue ← get (λ w, priorityQueue (this w));
  match queue with
  | None => new_TimePriorityQueue instanceMetadata
  | Some _ => mret tt
  end ;;
  popPastEntries ;;
  handleNextAlarm ;;
  running ← get (λ w, isRunning (this w));
  if running : bool then mret None else
  modify (with_this (set_identity accountId (DatabaseInstance.name instance)
                                  (DatabaseWorkflow.name workflow))) ;;
  status ← getStatus accountId (DatabaseInstance.name instance);
  if bool_decide (status ∈ [Errored; Terminated; Complete]) then mret None else
  stored ← storage_get INSTANCE_METADATA;
  match stored with
  | None =>
      storage_put INSTANCE_METADATA instanceMetadata ;;
      writeLog WORKFLOW_QUEUED None None
        [("params", WorkflowEvent.payload event);
         ("versionId", JsString (DatabaseVersion.id version));
         ("trigger", JsObject [("source", InstanceTrigger_API)])] ;;
      writeLog WORKFLOW_START None None []
  | Some _ => mret tt
  end ;;
  let workflowRunningHandler :=
    transaction (setStatus accountId (DatabaseInstance.name instance) Running) in
  modify (with_this (set_isRunning true)) ;;
  void workflowRunningHandler ;;
  try_catch
    (result ← target_run event;
     console_log [JsString "completed"; result] ;;
     writeLog WORKFLOW_SUCCESS None None [("result", result)] ;;
     transaction (setStatus accountId (DatabaseInstance.name instance) Complete) ;;
     modify (with_this (set_isRunning false)))
    (λ err,
     let error := normalize_error err in
     writeLog WORKFLOW_FAILURE None None [("error", error)] ;;
     transaction (setStatus accountId (DatabaseInstance.name instance) Errored) ;;
     modify (with_this (set_isRunning false))) ;;
  mret (Some {| InitResult.id := DatabaseInstance.name instance |}).

(** ** Running methods *)

(** The world a finished or suspended method leaves. *)
Definition world_of {A : Type} (t : Task A) : World :=
  match t with
  | Ret _ w => w
  | Await _ w _ => w
  end.

(** The result of a method that has finished. *)
Definition completion_of {A : Type} (t : Task A) : option (Completion A) :=
  match t with
  | Ret c _ => Some c
  | Await _ _ _ => None
  end.

(** The rest of a suspended method, or the method itself once finished. *)
Definition resume {A : Type} (t : Task A) (o : Outcome) (w' : World) : Task A :=
  match t with
  | Ret c w => Ret c w
  | Await _ _ k => k o w'
  end.

(** ** [init], phase by phase

    The same method read as world transformers, one per block of its body;
    [init_running], [init_terminal] and [init_suspends] tie them to the
    method. *)

Definition metadata_of (accountId : Z) (workflow : DatabaseWorkflow.t)
    (version : DatabaseVersion.t) (instance : DatabaseInstance.t)
    (event : WorkflowEvent.t) : InstanceMetadata.t :=
  {| InstanceMetadata.accountId := accountId;
     InstanceMetadata.workflow := workflow;
     InstanceMetadata.version := version;
     InstanceMetadata.instance := instance;
     InstanceMetadata.event := event |}.

(** The queue is built on first use. *)
Definition bind_queue (md : InstanceMetadata.t) (w : World) : World :=
  match priorityQueue (this w) with
  | None => record (EvQueueNew md)
              (with_this (set_priorityQueue (Some {| TimePriorityQueue.bound := md |})) w)
  | Some _ => w
  end.

Definition drain (w : World) : World :=
  record (EvPopPastEntries (TimePriorityQueue.popPastEntries (now w) (ctx w)).1)
    (with_ctx (λ _, (TimePriorityQueue.popPastEntries (now w) (ctx w)).2) w).

Definition rearm (w : World) : World :=
  record (EvHandleNextAlarm (TimePriorityQueue.min_timestamp (priority_queue (ctx w))))
    (with_ctx (λ _, TimePriorityQueue.handleNextAlarm (ctx w)) w).

(** Everything up to the re-entrancy guard. *)
Definition poll (md : InstanceMetadata.t) (w : World) : World :=
  rearm (drain (bind_queue md w)).

(** The three assignments after the guard. *)
Definition adopt (md : InstanceMetadata.t) (w : World) : World :=
  with_this (set_identity (InstanceMetadata.accountId md)
               (DatabaseInstance.name (InstanceMetadata.instance md))
               (DatabaseWorkflow.name (InstanceMetadata.workflow md))) w.

Definition queued_entry (md : InstanceMetadata.t) : LogEntry.t :=
  {| LogEntry.event := WORKFLOW_QUEUED; LogEntry.group := None; LogEntry.target := None;
     LogEntry.metadata :=
       [("params", WorkflowEvent.payload (InstanceMetadata.event md));
        ("versionId", JsString (DatabaseVersion.id (InstanceMetadata.version md)));
        ("trigger", JsObject [("source", InstanceTrigger_API)])] |}.

Definition start_entry : LogEntry.t :=
  {| LogEntry.event := WORKFLOW_START; LogEntry.group := None; LogEntry.target := None;
     LogEntry.metadata := [] |}.

Definition success_entry (result : JsValue) : LogEntry.t :=
  {| LogEntry.event := WORKFLOW_SUCCESS; LogEntry.group := None; LogEntry.target := None;
     LogEntry.metadata := [("result", result)] |}.

Definition failure_entry (err : JsValue) : LogEntry.t :=
  {| LogEntry.event := WORKFLOW_FAILURE; LogEntry.group := None; LogEntry.target := None;
     LogEntry.metadata := [("error", normalize_error err)] |}.

Definition push_log (entry : LogEntry.t) (w : World) : World :=
  with_this (λ e, set_logs (logs e ++ [entry]) e) w.

(** The metadata test and, when the slot is empty, the first activation. *)
Definition activate (md : InstanceMetadata.t) (w : World) : World :=
  let w1 := record (EvStorageGet INSTANCE_METADATA) w in
  match kv (ctx w) !! INSTANCE_METADATA with
  | None =>
      push_log start_entry
        (push_log (queued_entry md)
           (record (EvStoragePut INSTANCE_METADATA md)
              (with_ctx (λ s, {| kv := <[INSTANCE_METADATA := md]> (kv s);
                                 priority_queue := priority_queue s;
                                 alarm := alarm s |}) w1)))
  | Some _ => w1
  end.

(** A status write inside its transaction. *)
Definition commit_status (st : InstanceStatus) (w : World) : World :=
  record EvTxCommit (record (EvSetStatus st) (with_this (set_status st)
    (record EvTxBegin w))).

(** The guard is set, [Running] is written, the workflow is called. *)
Definition launch (md : InstanceMetadata.t) (w : World) : World :=
  record (EvRun (InstanceMetadata.event md))
    (commit_status Running (with_this (set_isRunning true) w)).

(** The body after the [await], for either way the workflow settles. *)
Definition conclude (o : Outcome) (w : World) : World :=
  match o with
  | Resolved result =>
      with_this (set_isRunning false)
        (commit_status Complete
           (push_log (success_entry result)
              (record (EvConsoleLog [JsString "completed"; result]) w)))
  | Rejected err =>
      with_this (set_isRunning false)
        (commit_status Errored (push_log (failure_entry err) w))
  end.

Definition is_terminal (st : InstanceStatus) : bool :=
  bool_decide (st ∈ [Errored; Terminated; Complete]).

Definition returned_id (instance : DatabaseInstance.t) : option InitResult.t :=
  Some {| InitResult.id := DatabaseInstance.name instance |}.

(** ** The engine as an actor

    Calls arrive one at a time. A call runs until it finishes or waits for
    the user workflow; while it waits, other calls run, the workflow may
    settle, collaborators may schedule timers, and time passes. *)

Inductive Call :=
| CallInit (accountId : Z) (workflow : DatabaseWorkflow.t) (version : DatabaseVersion.t)
    (instance : DatabaseInstance.t) (event : WorkflowEvent.t)
| CallGetStatus (accountId : Z) (instanceId : string)
| CallSetStatus (accountId : Z) (instanceId : string) (status : InstanceStatus)
| CallReadLogs
| CallAbort (reason : string)
| CallUserTriggeredTerminate.

Inductive Reply :=
| InitReply (r : option InitResult.t)
| StatusReply (st : InstanceStatus)
| LogsReply (r : InstanceLogsResponse.t)
| VoidReply.

Definition invoke (c : Call) : M Reply :=
  match c with
  | CallInit a wf v i ev => r ← init a wf v i ev; mret (InitReply r)
  | CallGetStatus a i => st ← getStatus a i; mret (StatusReply st)
  | CallSetStatus a i st => setStatus a i st ;; mret VoidReply
  | CallReadLogs => r ← readLogs; mret (LogsReply r)
  | CallAbort reason => abort reason ;; mret VoidReply
  | CallUserTriggeredTerminate => userTriggeredTerminate ;; mret VoidReply
  end.

Inductive Input :=
| Invoke (c : Call)
| Settle (n : nat) (o : Outcome)
| Enqueue (entryType : Z) (hash : string) (targetTimestamp : Z)
| SqlInsert (r : Row.t)
| SqlInsertOrIgnore (r : Row.t)
| SqlDelete (doomed : Row.t → bool)
| Tick (dt : Z).

Record Actor := {
  world : World;
  waiting : list (Outcome → World → Task Reply)
}.

Definition land (ws : list (Outcome → World → Task Reply)) (t : Task Reply) : Actor :=
  match t with
  | Ret _ w => {| world := w; waiting := ws |}
  | Await _ w k => {| world := w; waiting := ws ++ [k] |}
  end.

Definition on_table (f : list Row.t → list Row.t) (w : World) : World :=
  with_ctx (λ s, {| kv := kv s; priority_queue := f (priority_queue s);
                    alarm := alarm s |}) w.

Definition step (a : Actor) (i : Input) : Actor :=
  match i with
  | Invoke c => land (waiting a) (invoke c (world a))
  | Settle n o =>
      match waiting a !! n with
      | Some k => land (delete n (waiting a)) (k o (world a))
      | None => a
      end
  | Enqueue entryType hash targetTimestamp =>
      {| world := with_ctx (TimePriorityQueue.enqueue (now (world a)) entryType hash
                              targetTimestamp) (world a);
         waiting := waiting a |}
  | SqlInsert r =>
      {| world := on_table (λ t, default t (Sql.insert r t)) (world a);
         waiting := waiting a |}
  | SqlInsertOrIgnore r =>
      {| world := on_table (Sql.insert_or_ignore r) (world a); waiting := waiting a |}
  | SqlDelete doomed =>
      {| world := on_table (Sql.delete doomed) (world a); waiting := waiting a |}
  | Tick dt =>
      {| world := {| this := this (world a); ctx := ctx (world a);
                     now := now (world a) + Z.max 0 dt;
                     history := history (world a) |};
         waiting := waiting a |}
  end.

Definition run (a : Actor) (inputs : list Input) : Actor := foldl step a inputs.

(** The actor right after construction over a store. *)
Definition boot (ENGINE_TIMEOUT clock : Z) (state : Storage) : Actor :=
  {| world := constructor ENGINE_TIMEOUT clock state; waiting := [] |}.

Definition status_of (a : Actor) : InstanceStatus := status (this (world a)).
Definition table_of (a : Actor) : list Row.t := priority_queue (ctx (world a)).

(** One move of the status state machine, or none. *)
Definition advances (st st' : InstanceStatus) : Prop :=
  st' = st
  ∨ (st = Queued ∧ st' = Running)
  ∨ (st = Running ∧ st' ∈ [Complete; Errored; Terminated]).

#[global] Instance advances_dec st st' : Decision (advances st st').
Proof. unfold advances. apply _. Defined.

Definition is_setStatus (i : Input) : bool :=
  match i with
  | Invoke (CallSetStatus _ _ _) => true
  | _ => false
  end.

(** The statuses written, and the metadata slot writes made, in a history. *)
Definition status_writes (h : list Effect) : list InstanceStatus :=
  omap (λ e, match e with EvSetStatus st => Some st | _ => None end) h.

Definition metadata_writes (h : list Effect) : list InstanceMetadata.t :=
  omap (λ e, match e with
             | EvStoragePut key md =>
                 if decide (key = INSTANCE_METADATA) then Some md else None
             | _ => None
             end) h.

(** The part of a history a call added. *)
Definition added (before after : list Effect) : list Effect :=
  drop (length before) after.

(** A call that drains due timers and re-arms the wake-up before anything
    else: its first effects, after building the queue if it had to, are the
    drain and then the re-arm. *)
Definition polls_first (w w' : World) : Prop :=
  ∃ built popped armed tail,
    (built = [] ∨ ∃ md, built = [EvQueueNew md])
    ∧ history w' = history w ++ built
                   ++ [EvPopPastEntries popped; EvHandleNextAlarm armed] ++ tail.

(** A waiting continuation that is the rest of an [init] call. *)
Definition init_waiter (k : Outcome → World → Task Reply) : Prop :=
  ∃ r, ∀ o w', k o w' = Ret (Normal r) (conclude o w').

(** The guard is set exactly while one [init] waits for the workflow. *)
Definition guarded (a : Actor) : Prop :=
  (isRunning (this (world a)) = false ∧ waiting a = [])
  ∨ (isRunning (this (world a)) = true ∧ ∃ k, waiting a = [k] ∧ init_waiter k).

(** While an [init] waits, the status is the [Running] it wrote. *)
Definition running_in_flight (a : Actor) : Prop :=
  isRunning (this (world a)) = true → status_of a = Running.

(** ** Sample engines and arguments *)

Definition empty_storage : Storage :=
  {| kv := ∅; priority_queue := []; alarm := None |}.

Definition fresh : World := constructor 30000 0 empty_storage.

Definition wf1 : DatabaseWorkflow.t :=
  {| DatabaseWorkflow.name := "orders"; DatabaseWorkflow.id := "wf-1";
     DatabaseWorkflow.created_on := "2024"; DatabaseWorkflow.modified_on := "2024";
     DatabaseWorkflow.script_name := "orders.js";
     DatabaseWorkflow.class_name := None; DatabaseWorkflow.triggered_on := None |}.

Definition ver1 : DatabaseVersion.t :=
  {| DatabaseVersion.id := "v-1"; DatabaseVersion.class_name := "";
     DatabaseVersion.created_on := "2024"; DatabaseVersion.modified_on := "2024";
     DatabaseVersion.workflow_id := "wf-1";
     DatabaseVersion.mutable_pipeline_id := "p-1" |}.

Definition inst1 : DatabaseInstance.t :=
  {| DatabaseInstance.name := "run-1"; DatabaseInstance.created_on := "2024";
     DatabaseInstance.modified_on := "2024"; DatabaseInstance.workflow_id := "wf-1";
     DatabaseInstance.version_id := "v-1"; DatabaseInstance.status := Queued;
     DatabaseInstance.started_on := None; DatabaseInstance.ended_on := None |}.

Definition ev1 : WorkflowEvent.t :=
  {| WorkflowEvent.payload := JsNumber 7; WorkflowEvent.timestamp := 0 |}.

(** A run in flight: [init] has been called on the fresh engine and waits
    for the workflow. *)
Definition busy : World := world_of (init 1 wf1 ver1 inst1 ev1 fresh).

(** The same run after the workflow resolved. *)
Definition finished : World :=
  world_of (resume (init 1 wf1 ver1 inst1 ev1 fresh) (Resolved (JsString "ok")) busy).

(** A second instance, and the finished engine at a later time with one
    timer due and one still to come in its store. *)
Definition inst2 : DatabaseInstance.t :=
  {| DatabaseInstance.name := "run-2"; DatabaseInstance.created_on := "2024";
     DatabaseInstance.modified_on := "2024"; DatabaseInstance.workflow_id := "wf-1";
     DatabaseInstance.version_id := "v-1"; DatabaseInstance.status := Queued;
     DatabaseInstance.started_on := None; DatabaseInstance.ended_on := None |}.

Definition finished_overdue : World :=
  {| this := this finished;
     ctx := TimePriorityQueue.enqueue 0 1 "sleep-2" 500
              (TimePriorityQueue.enqueue 0 1 "sleep-1" 10 (ctx finished));
     now := 100; history := history finished |}.

(** An engine whose store holds a timer that is already due. *)
Definition overdue : World :=
  {| this := this fresh;
     ctx := TimePriorityQueue.enqueue 0 1 "sleep-1" 10 empty_storage;
     now := 100; history := [] |}.

(** The actor after one complete, successful run. *)
Definition completed : Actor :=
  run (boot 30000 0 empty_storage)
    [Invoke (CallInit 1 wf1 ver1 inst1 ev1); Settle 0 (Resolved (JsString "ok"))].

(** What one input other than a [setStatus] call can do to the world of an
    actor that keeps its guard: [init] stops at the guard, stops at a
    terminal status or calls the workflow; a waiting [init] concludes; a
    collaborator rewrites the table; the clock moves; or nothing changes. *)
Inductive Move : World → World → Prop :=
| MoveGuard md w :
    isRunning (this w) = true → Move w (poll md w)
| MoveTerminal md w :
    isRunning (this w) = false → is_terminal (status (this w)) = true →
    Move w (adopt md (poll md w))
| MoveLaunch md w :
    isRunning (this w) = false → is_terminal (status (this w)) = false →
    Move w (launch md (activate md (adopt md (poll md w))))
| MoveConclude o w :
    isRunning (this w) = true → Move w (conclude o w)
| MoveTable f w :
    Move w (on_table f w)
| MoveClock t w :
    Move w {| this := this w; ctx := ctx w; now := t; history := history w |}
| MoveNothing w :
    Move w w.

(** ** Eviction

    The object can be dropped and built again over the same store: the
    store and the clock stay, every in-memory field starts over, and a
    call that was waiting for the workflow is gone. *)
Inductive Happening :=
| Plain (i : Input)
| Evicted (ENGINE_TIMEOUT : Z).

Definition happen (a : Actor) (h : Happening) : Actor :=
  match h with
  | Plain i => step a i
  | Evicted ENGINE_TIMEOUT =>
      {| world := constructor ENGINE_TIMEOUT (now (world a)) (ctx (world a));
         waiting := [] |}
  end.

Definition live (a : Actor) (hs : list Happening) : Actor := foldl happen a hs.

(** The entry [init] appends when the workflow settles. *)
Definition outcome_entry (o : Outcome) : LogEntry.t :=
  match o with
  | Resolved result => success_entry result
  | Rejected err => failure_entry err
  end.

(** The calls of the user workflow a history shows. *)
Definition workflow_calls (h : list Effect) : list WorkflowEvent.t :=
  omap (λ e, match e with EvRun event => Some event | _ => None end) h.

(** * The development registry daemon

    The HTTP service of the same file: a process-wide registry of worker
    definitions behind three routes, kept alive by an exit timer that
    every request re-arms. *)
Module Daemon.

(** What [consumers.json] yields: a parsed JSON value. The daemon stores
    and returns these values and never looks inside a number. *)
#[warnings="-register-all"]
Inductive Json :=
| JNull
| JBool (b : bool)
| JNumber (n : Z)
| JString (s : string)
| JArray (items : list Json)
| JObject (members : list (string * Json)).

(** *** The registry object

    [workers] is an ordinary object used as a map: its own properties are
    the registered workers; its prototype matters only to an assignment
    under the key [__proto__]. *)
Inductive Prototype :=
| ObjectPrototype
| NullPrototype
| ValuePrototype (v : Json).

Record Obj := {
  own : gmap string Json;
  proto : Prototype
}.

(** [{}] *)
Definition empty_object : Obj := {| own := ∅; proto := ObjectPrototype |}.

Definition has_member (key : string) (members : list (string * Json)) : bool :=
  bool_decide (key ∈ members.*1).

(** Whether a lookup of [__proto__] through the prototype chain ends at
    the accessor of [Object.prototype]: not with a null prototype, and not
    when a parsed object in the chain carries a member of that name. *)
Definition reaches_accessor (p : Prototype) : bool :=
  match p with
  | ObjectPrototype => true
  | NullPrototype => false
  | ValuePrototype (JObject members) => negb (has_member "__proto__" members)
  | ValuePrototype _ => true
  end.

(** [o[key] = v] *)
Definition set_property (key : string) (v : Json) (o : Obj) : Obj :=
  if decide (key = "__proto__") then
    match own o !! key with
    | Some _ => {| own := <[key := v]> (own o); proto := proto o |}
    | None =>
        if reaches_accessor (proto o) then
          match v with
          | JNull => {| own := own o; proto := NullPrototype |}
          | JArray _ | JObject _ => {| own := own o; proto := ValuePrototype v |}
          | _ => o
          end
        else {| own := <[key := v]> (own o); proto := proto o |}
    end
  else {| own := <[key := v]> (own o); proto := proto o |}.

(** [delete o[key]] *)
Definition delete_property (key : string) (o : Obj) : Obj :=
  {| own := delete key (own o); proto := proto o |}.

(** *** The process *)

(** What the daemon tells its parent: [{type: "ready"}] or
    [{type: "error", error}]. *)
Inductive Message :=
| Ready
| Error (error : JsValue).

(** The module's variables and the parts of the process the daemon
    touches: the pending timers (all of them run [exit]), the clock, the
    messages sent to the parent, and whether there is an IPC channel.
    [workers] is the object the variable names at present; [epoch] counts
    how often the variable has been bound to a new object, so that an
    object held from before can be told from the one now named. An object
    the variable no longer names is never read again. *)
Record Process := {
  workers : Obj;
  epoch : nat;
  exitTimeout : option nat;
  timers : list (nat * Z);
  next_timer : nat;
  now : Z;
  exited : option Z;
  exitCode : option Z;
  sent : list Message;
  ipc : bool
}.

Definition with_workers (o : Obj) (p : Process) : Process :=
  {| workers := o; epoch := epoch p; exitTimeout := exitTimeout p;
     timers := timers p; next_timer := next_timer p; now := now p;
     exited := exited p; exitCode := exitCode p; sent := sent p; ipc := ipc p |}.

(** [workers = o], for a new object [o]. *)
Definition rebind_workers (o : Obj) (p : Process) : Process :=
  {| workers := o; epoch := S (epoch p); exitTimeout := exitTimeout p;
     timers := timers p; next_timer := next_timer p; now := now p;
     exited := exited p; exitCode := exitCode p; sent := sent p; ipc := ipc p |}.

(** [clearTimeout(t)]; clearing [undefined] or a timer that is gone does
    nothing. *)
Definition clearTimeout (t : option nat) (p : Process) : Process :=
  {| workers := workers p; epoch := epoch p; exitTimeout := exitTimeout p;
     timers := filter (λ entry, Some entry.1 ≠ t) (timers p);
     next_timer := next_timer p; now := now p; exited := exited p;
     exitCode := exitCode p; sent := sent p; ipc := ipc p |}.

(** [setTimeout(exit, delay)]: the new timer's handle and the process. *)
Definition setTimeout (delay : Z) (p : Process) : nat * Process :=
  (next_timer p,
   {| workers := workers p; epoch := epoch p; exitTimeout := exitTimeout p;
      timers := timers p ++ [(next_timer p, now p + delay)];
      next_timer := S (next_timer p); now := now p; exited := exited p;
      exitCode := exitCode p; sent := sent p; ipc := ipc p |}).

Definition resetExitTimeout (p : Process) : Process :=
  let p1 := clearTimeout (exitTimeout p) p in
  let '(handle, p2) := setTimeout 10000 p1 in
  {| workers := workers p2; epoch := epoch p2; exitTimeout := Some handle;
     timers := timers p2; next_timer := next_timer p2; now := now p2;
     exited := exited p2; exitCode := exitCode p2; sent := sent p2; ipc := ipc p2 |}.

(** [process.exit(0)] *)
Definition exit (p : Process) : Process :=
  {| workers := workers p; epoch := epoch p; exitTimeout := exitTimeout p;
     timers := timers p; next_timer := next_timer p; now := now p;
     exited := Some 0; exitCode := exitCode p; sent := sent p; ipc := ipc p |}.

(** Time passes; a timer whose deadline has come runs [exit]. *)
Definition elapse (dt : Z) (p : Process) : Process :=
  let p' := {| workers := workers p; epoch := epoch p;
               exitTimeout := exitTimeout p; timers := timers p;
               next_timer := next_timer p; now := now p + Z.max 0 dt;
               exited := exited p; exitCode := exitCode p; sent := sent p;
               ipc := ipc p |} in
  if existsb (λ entry, bool_decide (entry.2 ≤ now p')) (timers p) then exit p' else p'.

(** *** Responses *)

(** The body written by [res.end]: nothing, or the JSON text of [null] or
    of the registry, which lists the registry's own properties. *)
Inductive Body :=
| NoBody
| NullBody
| RegistryBody (entries : gmap string Json).

Record Response := {
  statusCode : Z;
  headers : list (string * string);
  body : Body
}.

Inductive Value :=
| NullValue
| RegistryValue (o : Obj).

Definition stringify (value : Value) : Body :=
  match value with
  | NullValue => NullBody
  | RegistryValue o => RegistryBody (own o)
  end.

Definition jsonResponse (value : Value) : Response :=
  {| statusCode := 200; headers := [("content-type", "application/json")];
     body := stringify value |}.

Definition notFoundResponse : Response :=
  {| statusCode := 404; headers := []; body := NoBody |}.

(** *** Routes *)

Fixpoint strip_prefix (prefix s : string) : option string :=
  match prefix, s with
  | EmptyString, _ => Some s
  | String a prefix', String b s' =>
      if decide (a = b) then strip_prefix prefix' s' else None
  | String _ _, EmptyString => None
  end.

(** [[^/]+], greedy: the longest run of characters other than [/], and
    what follows it. *)
Fixpoint segment (s : string) : string * string :=
  match s with
  | EmptyString => (EmptyString, EmptyString)
  | String c s' =>
      if decide (c = "/"%char) then (EmptyString, s)
      else (String c (segment s').1, (segment s').2)
  end.

(** [\/?$] *)
Definition slash_end (s : string) : bool :=
  bool_decide (s = "" ∨ s = "/").

Fixpoint slash_free (s : string) : bool :=
  match s with
  | EmptyString => true
  | String c s' => negb (bool_decide (c = "/"%char)) && slash_free s'
  end.

(** [/^\/workers\/?$/.test(pathname)] *)
Definition test_workers (pathname : string) : bool :=
  match strip_prefix "/workers" pathname with
  | Some rest => slash_end rest
  | None => false
  end.

(** [/^\/workers\/(?<id>[^/]+)\/?$/.exec(pathname)]: the [id] group of the
    match. *)
Definition exec_worker (pathname : string) : option string :=
  match strip_prefix "/workers/" pathname with
  | Some rest =>
      let found := segment rest in
      if negb (bool_decide (found.1 = "")) && slash_end found.2
      then Some found.1 else None
  | None => None
  end.

(** [/^\/workers\/(?<id>[^/]+)?\/?$/.exec(pathname)]: the [id] group of
    the match, [None] inside when the group did not take part. *)
Definition exec_worker_optional (pathname : string) : option (option string) :=
  match strip_prefix "/workers/" pathname with
  | Some rest =>
      let found := segment rest in
      if slash_end found.2
      then Some (if bool_decide (found.1 = "") then None else Some found.1)
      else None
  | None => None
  end.

(** *** The request listener *)

(** A request as the listener reads it: the method, and the pathname
    [new URL(req.url ?? "", "http://localhost/")] gives, [None] when the
    constructor throws. *)
Record Request := {
  method : option string;
  pathname : option string
}.

(** How far a call of the listener gets: a response, a rejected promise
    with nothing sent (the module has no handler for it), or the wait for
    the request body of a [POST]. The
    assignment [workers[id] = await ...] takes the object [workers] names
    and the key before it waits, so the wait holds both. *)
Inductive Handling :=
| Responded (res : Response) (p : Process)
| Rejected (p : Process)
| ReadingBody (held : nat) (id : string) (p : Process).

(** The rest of the [POST] branch once [consumers.json] has settled;
    [None] is a body that is not JSON. The definition is stored in the
    object held since before the wait: in the registry when the variable
    still names that object, in an object nobody reads otherwise. *)
Definition finish_post (held : nat) (id : string) (parsed : option Json)
    (p : Process) : Handling :=
  match parsed with
  | None => Rejected p
  | Some definition =>
      Responded (jsonResponse NullValue)
        (if decide (held = epoch p)
         then with_workers (set_property id definition (workers p)) p
         else p)
  end.

Definition requestListener (req : Request) (p : Process) : Handling :=
  let p := resetExitTimeout p in
  match pathname req with
  | None => Rejected p
  | Some pathname =>
      if bool_decide (method req = Some "GET") && test_workers pathname
      then Responded (jsonResponse (RegistryValue (workers p))) p
      else
        match (if bool_decide (method req = Some "POST")
               then exec_worker pathname else None) with
        | Some id => ReadingBody (epoch p) id p
        | None =>
            match (if bool_decide (method req = Some "DELETE")
                   then exec_worker_optional pathname else None) with
            | Some None =>
                Responded (jsonResponse NullValue) (rebind_workers empty_object p)
            | Some (Some id) =>
                Responded (jsonResponse NullValue)
                  (with_workers (delete_property id (workers p)) p)
            | None => Responded notFoundResponse p
            end
        end
  end.

(** *** Start-up *)

(** [server.listen] followed by the wait for ["listening"]: the port is
    bound, or the wait throws. *)
Inductive ListenOutcome :=
| Listening
| ListenFailed (error : JsValue).

(** [process.send?.(message)]: skipped when there is no IPC channel. *)
Definition send (message : Message) (p : Process) : Process :=
  if ipc p then
    {| workers := workers p; epoch := epoch p; exitTimeout := exitTimeout p;
       timers := timers p; next_timer := next_timer p; now := now p;
       exited := exited p; exitCode := exitCode p; sent := sent p ++ [message];
       ipc := ipc p |}
  else p.

Definition set_exitCode (code : Z) (p : Process) : Process :=
  {| workers := workers p; epoch := epoch p; exitTimeout := exitTimeout p;
     timers := timers p; next_timer := next_timer p; now := now p;
     exited := exited p; exitCode := Some code; sent := sent p; ipc := ipc p |}.

(** How [start] settles. *)
Inductive Started :=
| Fulfilled (p : Process)
| Failed (p : Process).

(** [process.disconnect()], which is not a function without an IPC
    channel. *)
Definition disconnect (p : Process) : Started :=
  if ipc p then
    Fulfilled {| workers := workers p; epoch := epoch p;
                 exitTimeout := exitTimeout p; timers := timers p;
                 next_timer := next_timer p; now := now p; exited := exited p;
                 exitCode := exitCode p; sent := sent p; ipc := false |}
  else Failed p.

Definition start (outcome : ListenOutcome) (p : Process) : Started :=
  let tried :=
    match outcome with
    | Listening => resetExitTimeout (send Ready p)
    | ListenFailed error => set_exitCode 1 (send (Error error) p)
    end in
  disconnect tried.

(** The process when the module is loaded. *)
Definition loaded (clock : Z) (channel : bool) : Process :=
  {| workers := empty_object; epoch := 0; exitTimeout := None; timers := [];
     next_timer := 0; now := clock; exited := None; exitCode := None; sent := [];
     ipc := channel |}.

(** *** The daemon serving requests

    Requests arrive, request bodies finish arriving, time passes; a
    process that has exited takes no further part. *)
Inductive Event :=
| Arrives (req : Request)
| BodyRead (n : nat) (parsed : option Json)
| Elapses (dt : Z).

Record Server := {
  process : Process;
  reading : list (nat * string);
  responses : list Response
}.

Definition settle (readers : list (nat * string)) (out : list Response)
    (h : Handling) : Server :=
  match h with
  | Responded res p => {| process := p; reading := readers; responses := out ++ [res] |}
  | Rejected p => {| process := p; reading := readers; responses := out |}
  | ReadingBody held id p =>
      {| process := p; reading := readers ++ [(held, id)]; responses := out |}
  end.

Definition serve (s : Server) (e : Event) : Server :=
  match exited (process s) with
  | Some _ => s
  | None =>
      match e with
      | Arrives req => settle (reading s) (responses s) (requestListener req (process s))
      | BodyRead n parsed =>
          match reading s !! n with
          | Some (held, id) =>
              settle (delete n (reading s)) (responses s)
                (finish_post held id parsed (process s))
          | None => s
          end
      | Elapses dt =>
          {| process := elapse dt (process s); reading := reading s;
             responses := responses s |}
      end
  end.

Definition serve_all (s : Server) (events : list Event) : Server := foldl serve s events.

Definition process_of (s : Started) : Process :=
  match s with
  | Fulfilled p => p
  | Failed p => p
  end.

(** The server once [start] has found the port listening and has been
    fulfilled, which takes an IPC channel: without one [start] fails at
    [process.disconnect()] and the process serves no request. *)
Definition listening (clock : Z) : Server :=
  {| process := process_of (start Listening (loaded clock true));
     reading := []; responses := [] |}.

(** The one pending exit timer of a live process, due in the future. *)
Definition one_exit_timer (p : Process) : Prop :=
  ∃ handle deadline,
    timers p = [(handle, deadline)]
    ∧ exitTimeout p = Some handle
    ∧ now p < deadline ∧ deadline ≤ now p + 10000.

Definition is_arrival (e : Event) : bool :=
  match e with
  | Arrives _ => true
  | _ => false
  end.

(** The time that passes at an event, and in the course of a run. *)
Definition wait (e : Event) : Z :=
  match e with
  | Elapses dt => Z.max 0 dt
  | _ => 0
  end.

Definition waited (events : list Event) : Z :=
  foldr (λ e total, wait e + total) 0 events.

(** An event at which a call of the listener may end in a rejected
    promise: a request whose URL does not parse, a body that is not JSON.
    What the host does with such a promise is outside the module, so the
    properties of whole runs are stated for runs without one. *)
Definition rejects (e : Event) : bool :=
  match e with
  | Arrives req => bool_decide (pathname req = None)
  | BodyRead _ parsed => bool_decide (parsed = None)
  | Elapses _ => false
  end.

End Daemon.

(** * Properties *)

(** *** Projections of the phases *)

Lemma poll_this md w :
  logs (this (poll md w)) = logs (this w)
  ∧ status (this (poll md w)) = status (this w)
  ∧ isRunning (this (poll md w)) = isRunning (this w).
Proof. unfold poll, bind_queue. by destruct (priorityQueue (this w)). Qed.

Lemma poll_kv md w : kv (ctx (poll md w)) = kv (ctx w).
Proof. unfold poll, bind_queue. by destruct (priorityQueue (this w)). Qed.

(** Splits a world into its fields, after which a method computes. *)
Ltac open_world w :=
  let e := fresh "e" in
  destruct w as [e ? ? ?]; destruct e; cbn in *; subst.

Ltac run_method :=
  repeat (unfold init, storage_get, storage_put, transaction, setStatus, getStatus,
            writeLog, void, try_catch, target_run, console_log,
            new_TimePriorityQueue, popPastEntries, handleNextAlarm,
            TimePriorityQueue.popPastEntries, TimePriorityQueue.handleNextAlarm,
            emit, modify, get, mbind, M_bind, mret, M_ret;
          cbn [task_bind task_catch task_void this ctx now history fst snd
               with_this with_ctx record
               logs status isRunning priorityQueue kv priority_queue alarm
               set_identity set_status set_isRunning set_logs set_priorityQueue];
          try match goal with
              | |- context [bool_decide (?s ∈ ?l)] =>
                  let b := eval vm_compute in (bool_decide (s ∈ l)) in
                  change (bool_decide (s ∈ l)) with b
              end).

Lemma init_running a wf v i ev w :
  isRunning (this w) = true →
  init a wf v i ev w = Ret (Normal None) (poll (metadata_of a wf v i ev) w).
Proof.
  intros Hrun. open_world w.
  unfold init, poll, bind_queue; cbn.
  by destruct priorityQueue0.
Qed.

Lemma init_terminal a wf v i ev w :
  isRunning (this w) = false →
  is_terminal (status (this w)) = true →
  init a wf v i ev w
  = Ret (Normal None) (adopt (metadata_of a wf v i ev) (poll (metadata_of a wf v i ev) w)).
Proof.
  intros Hrun Hterm. open_world w.
  destruct status0; try (by vm_compute in Hterm);
    unfold init, poll, bind_queue; cbn; by destruct priorityQueue0.
Qed.

Lemma init_suspends a wf v i ev w :
  isRunning (this w) = false →
  is_terminal (status (this w)) = false →
  let md := metadata_of a wf v i ev in
  ∃ k, init a wf v i ev w = Await ev (launch md (activate md (adopt md (poll md w)))) k
       ∧ ∀ o w', k o w' = Ret (Normal (returned_id i)) (conclude o w').
Proof.
  intros Hrun Hterm md. open_world w.
  destruct ctx0 as [kv0 table alarm0].
  destruct status0; try (by vm_compute in Hterm);
    unfold activate, adopt, poll, rearm, drain, bind_queue;
    destruct priorityQueue0; run_method;
    (destruct (kv0 !! INSTANCE_METADATA); run_method;
     eexists; (split; [reflexivity | by intros [result | err] w'])).
Qed.

Lemma poll_history md w :
  ∃ built,
    (built = [] ∨ built = [EvQueueNew md])
    ∧ history (poll md w)
      = history w ++ built
        ++ [EvPopPastEntries (TimePriorityQueue.popPastEntries (now w) (ctx w)).1;
            EvHandleNextAlarm (TimePriorityQueue.min_timestamp
                                 (Sql.delete (TimePriorityQueue.due (now w))
                                    (priority_queue (ctx w))))].
Proof.
  unfold poll, bind_queue. destruct (priorityQueue (this w)); cbn.
  - exists []. split; [by left |]. by rewrite <- !app_assoc.
  - exists [EvQueueNew md]. split; [by right |]. by rewrite <- !app_assoc.
Qed.

Lemma poll_table md w :
  priority_queue (ctx (poll md w))
  = Sql.delete (TimePriorityQueue.due (now w)) (priority_queue (ctx w))
  ∧ alarm (ctx (poll md w))
    = TimePriorityQueue.min_timestamp
        (Sql.delete (TimePriorityQueue.due (now w)) (priority_queue (ctx w))).
Proof. unfold poll, bind_queue. by destruct (priorityQueue (this w)). Qed.

Lemma activate_this md w :
  status (this (activate md w)) = status (this w)
  ∧ isRunning (this (activate md w)) = isRunning (this w).
Proof. unfold activate. by destruct (kv (ctx w) !! INSTANCE_METADATA). Qed.

Lemma activate_first md w :
  kv (ctx w) !! INSTANCE_METADATA = None →
  logs (this (activate md w)) = logs (this w) ++ [queued_entry md; start_entry]
  ∧ history (activate md w)
    = history w ++ [EvStorageGet INSTANCE_METADATA; EvStoragePut INSTANCE_METADATA md]
  ∧ kv (ctx (activate md w)) = <[INSTANCE_METADATA := md]> (kv (ctx w)).
Proof.
  intros Hslot. unfold activate. rewrite Hslot. cbn.
  by rewrite <- !app_assoc.
Qed.

Lemma activate_again md w :
  is_Some (kv (ctx w) !! INSTANCE_METADATA) →
  logs (this (activate md w)) = logs (this w)
  ∧ history (activate md w) = history w ++ [EvStorageGet INSTANCE_METADATA]
  ∧ kv (ctx (activate md w)) = kv (ctx w).
Proof. intros [old Hslot]. unfold activate. by rewrite Hslot. Qed.

Lemma launch_this md w :
  status (this (launch md w)) = Running
  ∧ isRunning (this (launch md w)) = true
  ∧ logs (this (launch md w)) = logs (this w)
  ∧ ctx (launch md w) = ctx w
  ∧ history (launch md w)
    = history w ++ [EvTxBegin; EvSetStatus Running; EvTxCommit;
                    EvRun (InstanceMetadata.event md)].
Proof. cbn. by rewrite <- !app_assoc. Qed.

Lemma conclude_resolved result w :
  status (this (conclude (Resolved result) w)) = Complete
  ∧ isRunning (this (conclude (Resolved result) w)) = false
  ∧ logs (this (conclude (Resolved result) w)) = logs (this w) ++ [success_entry result]
  ∧ ctx (conclude (Resolved result) w) = ctx w
  ∧ history (conclude (Resolved result) w)
    = history w ++ [EvConsoleLog [JsString "completed"; result];
                    EvTxBegin; EvSetStatus Complete; EvTxCommit].
Proof. cbn. by rewrite <- !app_assoc. Qed.

Lemma conclude_rejected err w :
  status (this (conclude (Rejected err) w)) = Errored
  ∧ isRunning (this (conclude (Rejected err) w)) = false
  ∧ logs (this (conclude (Rejected err) w)) = logs (this w) ++ [failure_entry err]
  ∧ ctx (conclude (Rejected err) w) = ctx w
  ∧ history (conclude (Rejected err) w)
    = history w ++ [EvTxBegin; EvSetStatus Errored; EvTxCommit].
Proof. cbn. by rewrite <- !app_assoc. Qed.

Lemma status_writes_app h1 h2 :
  status_writes (h1 ++ h2) = status_writes h1 ++ status_writes h2.
Proof. apply omap_app. Qed.

Lemma metadata_writes_app h1 h2 :
  metadata_writes (h1 ++ h2) = metadata_writes h1 ++ metadata_writes h2.
Proof. apply omap_app. Qed.

Lemma added_app (h t : list Effect) : added h (h ++ t) = t.
Proof. unfold added. by rewrite drop_app_length. Qed.

(** The normalised error always carries both fields. *)
Lemma normalize_error_fields err :
  ∃ name message,
    js_get "name" (normalize_error err) = Some (JsString name)
    ∧ js_get "message" (normalize_error err) = Some message
    ∧ match err with
      | JsError n m => name = n ∧ message = JsString m
      | _ => name = "Error" ∧ message = err
      end.
Proof. destruct err; cbn; eauto 6. Qed.

(** ** The success and failure paths *)

(** C1. When [init] is called with the guard unset and a non-terminal
    status, it writes [Running] and waits for the user workflow; when the
    workflow resolves with [V], [init] appends a [WORKFLOW_SUCCESS] entry
    whose [result] is [V], writes [Complete], and returns. With nothing
    interleaved the statuses written by the call are [Running] then
    [Complete], so an instance that was [Queued] goes
    [Queued -> Running -> Complete]. *)
Theorem init_success_path a wf v i ev w V :
  isRunning (this w) = false →
  is_terminal (status (this w)) = false →
  ∃ w_run k,
    init a wf v i ev w = Await ev w_run k
    ∧ status (this w_run) = Running
    ∧ (∀ w', ∃ w_end,
         k (Resolved V) w' = Ret (Normal (returned_id i)) w_end
         ∧ status (this w_end) = Complete
         ∧ logs (this w_end) = logs (this w') ++ [success_entry V]
         ∧ js_get "result" (JsObject (LogEntry.metadata (success_entry V))) = Some V)
    ∧ (∃ w_end,
         k (Resolved V) w_run = Ret (Normal (returned_id i)) w_end
         ∧ status_writes (added (history w) (history w_end)) = [Running; Complete]
         ∧ (status (this w) = Queued →
            status (this w) :: status_writes (added (history w) (history w_end))
            = [Queued; Running; Complete])).
Proof.
  intros Hrun Hterm.
  destruct (init_suspends a wf v i ev w Hrun Hterm) as (k & Hinit & Hk).
  set (md := metadata_of a wf v i ev) in *.
  exists (launch md (activate md (adopt md (poll md w)))), k.
  split; [exact Hinit |]. split; [apply launch_this |]. split.
  - intros w'. exists (conclude (Resolved V) w'). rewrite Hk.
    destruct (conclude_resolved V w') as (Hst & _ & Hlogs & _). done.
  - eexists. split; [apply Hk |].
    assert (status_writes
              (added (history w)
                 (history (conclude (Resolved V)
                    (launch md (activate md (adopt md (poll md w)))))))
            = [Running; Complete]) as Hwrites.
    { destruct (conclude_resolved V (launch md (activate md (adopt md (poll md w)))))
        as (_ & _ & _ & _ & ->).
      destruct (launch_this md (activate md (adopt md (poll md w))))
        as (_ & _ & _ & _ & ->).
      destruct (poll_history md w) as (built & Hbuilt & Hpoll).
      assert (∃ got, history (activate md (adopt md (poll md w)))
                     = history (poll md w) ++ got
                     ∧ status_writes got = []) as (got & -> & Hgot).
      { unfold activate.
        destruct (kv (ctx (adopt md (poll md w))) !! INSTANCE_METADATA); cbn;
          [| rewrite <- app_assoc]; eexists; (split; [reflexivity | done]). }
      rewrite Hpoll, <- !app_assoc, added_app, !status_writes_app, Hgot.
      by destruct Hbuilt as [-> | ->]. }
    split; [exact Hwrites |]. intros ->. by rewrite Hwrites.
Qed.

(** C2. Whenever [init] has called the user workflow and the workflow
    throws [E], whatever [E] is, the rest of [init] completes normally: the
    error is normalised to an object with a [name] and a [message] taken
    from [E] (the name and message of an [Error]; the name ["Error"] and
    [E] itself as the message for any other value), a [WORKFLOW_FAILURE]
    entry carrying that object is appended, [Errored] is written between
    the begin and the commit of a transaction, and the guard is cleared. *)
Theorem init_failure_contained a wf v i ev w ev' w_run k E :
  init a wf v i ev w = Await ev' w_run k →
  ∀ w', ∃ w_end,
    k (Rejected E) w' = Ret (Normal (returned_id i)) w_end
    ∧ logs (this w_end) = logs (this w') ++ [failure_entry E]
    ∧ LogEntry.event (failure_entry E) = WORKFLOW_FAILURE
    ∧ LogEntry.metadata (failure_entry E) = [("error", normalize_error E)]
    ∧ (∃ name message,
         js_get "name" (normalize_error E) = Some (JsString name)
         ∧ js_get "message" (normalize_error E) = Some message
         ∧ match E with
           | JsError n m => name = n ∧ message = JsString m
           | _ => name = "Error" ∧ message = E
           end)
    ∧ normalize_error E
      = match E with
        | JsError n m => JsObject [("message", JsString m); ("name", JsString n)]
        | _ => JsObject [("name", JsString "Error"); ("message", E)]
        end
    ∧ status (this w_end) = Errored
    ∧ history w_end = history w' ++ [EvTxBegin; EvSetStatus Errored; EvTxCommit]
    ∧ isRunning (this w_end) = false.
Proof.
  intros Hinit w'.
  destruct (isRunning (this w)) eqn:Hrun.
  { by rewrite init_running in Hinit. }
  destruct (is_terminal (status (this w))) eqn:Hterm.
  { by rewrite init_terminal in Hinit. }
  destruct (init_suspends a wf v i ev w Hrun Hterm) as (k0 & Hk0 & Hk).
  rewrite Hk0 in Hinit. injection Hinit as _ _ <-.
  exists (conclude (Rejected E) w'). rewrite Hk.
  destruct (conclude_rejected E w') as (Hst & Hguard & Hlogs & _ & Hhist).
  destruct (normalize_error_fields E) as (name & message & Hn & Hm & Hfrom).
  do 4 (split; [done |]).
  split; [by exists name, message |].
  split; [by destruct E |]. done.
Qed.

(** ** First activation *)

Lemma poll_quiet md w :
  metadata_writes (added (history w) (history (poll md w))) = []
  ∧ status_writes (added (history w) (history (poll md w))) = [].
Proof.
  destruct (poll_history md w) as (built & Hbuilt & ->).
  rewrite added_app. by destruct Hbuilt as [-> | ->].
Qed.

(** C3. Two [init] calls with the same arguments on an instance that has
    not been activated: the first writes the metadata slot once and appends
    [WORKFLOW_QUEUED] then [WORKFLOW_START]; the second, whether it arrives
    while the first still waits for the workflow or after the workflow has
    settled, returns without writing the slot and without appending
    anything. *)
Theorem init_twice_activates_once a wf v i ev w :
  isRunning (this w) = false →
  is_terminal (status (this w)) = false →
  kv (ctx w) !! INSTANCE_METADATA = None →
  let md := metadata_of a wf v i ev in
  let first := init a wf v i ev w in
  let second := init a wf v i ev (world_of first) in
  logs (this (world_of first)) = logs (this w) ++ [queued_entry md; start_entry]
  ∧ LogEntry.event (queued_entry md) = WORKFLOW_QUEUED
  ∧ LogEntry.event start_entry = WORKFLOW_START
  ∧ metadata_writes (added (history w) (history (world_of first))) = [md]
  ∧ completion_of second = Some (Normal None)
  ∧ logs (this (world_of second)) = logs (this (world_of first))
  ∧ metadata_writes (added (history (world_of first)) (history (world_of second))) = []
  ∧ ∀ o,
      let settled := world_of (resume first o (world_of first)) in
      let late := init a wf v i ev settled in
      completion_of late = Some (Normal None)
      ∧ logs (this (world_of late)) = logs (this settled)
      ∧ metadata_writes (added (history settled) (history (world_of late))) = [].
Proof.
  intros Hrun Hterm Hslot md first second.
  destruct (init_suspends a wf v i ev w Hrun Hterm) as (k & Hinit & Hk).
  fold md in Hinit.
  set (w1 := launch md (activate md (adopt md (poll md w)))) in *.
  assert (world_of first = w1) as Hw1 by (unfold first; by rewrite Hinit).
  assert (kv (ctx (adopt md (poll md w))) !! INSTANCE_METADATA = None) as Hslot'.
  { change (kv (ctx (poll md w)) !! INSTANCE_METADATA = None). by rewrite poll_kv. }
  destruct (activate_first md _ Hslot') as (Hlogs & Hhist & _).
  destruct (launch_this md (activate md (adopt md (poll md w))))
    as (_ & Hguard & Hlogs1 & _ & Hhist1).
  fold w1 in Hguard, Hlogs1, Hhist1.
  split.
  { rewrite Hw1, Hlogs1, Hlogs. f_equal. apply poll_this. }
  split; [done |]. split; [done |]. split.
  { rewrite Hw1, Hhist1, Hhist.
    change (history (adopt md (poll md w))) with (history (poll md w)).
    destruct (poll_history md w) as (built & Hbuilt & ->).
    rewrite <- !app_assoc, added_app, !metadata_writes_app.
    by destruct Hbuilt as [-> | ->]. }
  assert (second = Ret (Normal None) (poll md w1)) as Hsecond.
  { unfold second. rewrite Hw1. by apply init_running. }
  split; [by rewrite Hsecond |]. split.
  { rewrite Hsecond, Hw1. apply poll_this. }
  split.
  { rewrite Hsecond, Hw1. apply poll_quiet. }
  intros o settled late.
  assert (settled = conclude o w1) as Hsettled.
  { unfold settled, first. rewrite Hinit. cbn. by rewrite Hk. }
  assert (late = Ret (Normal None) (adopt md (poll md settled))) as Hlate.
  { unfold late. apply init_terminal; rewrite Hsettled; by destruct o. }
  rewrite Hlate. split; [done |]. split.
  - apply (poll_this md settled).
  - apply (poll_quiet md settled).
Qed.

(** ** What [init] returns *)

(** C6. [init] returns [{id: instance.name}] exactly when it went on to
    call the user workflow, however the workflow settles; when it stops at
    the re-entrancy guard or at a terminal status it returns nothing. *)
Theorem init_reply a wf v i ev w o w' :
  completion_of (resume (init a wf v i ev w) o w')
  = Some (Normal (if isRunning (this w) || is_terminal (status (this w))
                  then None else returned_id i)).
Proof.
  destruct (isRunning (this w)) eqn:Hrun.
  { by rewrite init_running. }
  destruct (is_terminal (status (this w))) eqn:Hterm.
  { by rewrite init_terminal. }
  destruct (init_suspends a wf v i ev w Hrun Hterm) as (k & -> & Hk).
  cbn. by rewrite Hk.
Qed.

(** ** Which calls poll the timer queue *)

Lemma polls_first_poll md w w' tail :
  history w' = history (poll md w) ++ tail → polls_first w w'.
Proof.
  intros Hw'. unfold polls_first. rewrite Hw'.
  destruct (poll_history md w) as (built & Hbuilt & ->).
  exists built. do 2 eexists. exists tail. split.
  - destruct Hbuilt as [-> | ->]; eauto.
  - by rewrite <- !app_assoc.
Qed.

(** C7. [init] always polls the queue first, and leaves no due row and the
    wake-up at the least remaining timestamp; the other five calls never
    touch the store, so they neither drain nor re-arm. *)
Theorem only_init_polls_queue w :
  (∀ a wf v i ev,
     let w' := world_of (init a wf v i ev w) in
     polls_first w w'
     ∧ priority_queue (ctx w')
       = Sql.delete (TimePriorityQueue.due (now w)) (priority_queue (ctx w))
     ∧ alarm (ctx w') = TimePriorityQueue.min_timestamp (priority_queue (ctx w')))
  ∧ (∀ c, match c with CallInit _ _ _ _ _ => False | _ => True end →
          ctx (world_of (invoke c w)) = ctx w
          ∧ ¬ polls_first w (world_of (invoke c w))).
Proof.
  split.
  - intros a wf v i ev. set (md := metadata_of a wf v i ev).
    destruct (poll_table md w) as (Htable & Halarm).
    destruct (isRunning (this w)) eqn:Hrun.
    { rewrite init_running by done. fold md. cbn zeta.
      split; [apply (polls_first_poll md _ _ []); by rewrite app_nil_r |].
      split; [done |]. cbn [world_of]. by rewrite Halarm, Htable. }
    destruct (is_terminal (status (this w))) eqn:Hterm.
    { rewrite init_terminal by done. fold md. cbn zeta.
      split; [apply (polls_first_poll md _ _ []); by rewrite app_nil_r |].
      split; [done |]. cbn [world_of].
      change (alarm (ctx (adopt md (poll md w)))) with (alarm (ctx (poll md w))).
      change (priority_queue (ctx (adopt md (poll md w))))
        with (priority_queue (ctx (poll md w))).
      by rewrite Halarm, Htable. }
    destruct (init_suspends a wf v i ev w Hrun Hterm) as (k & -> & _).
    fold md. cbn zeta. cbn [world_of].
    destruct (launch_this md (activate md (adopt md (poll md w))))
      as (_ & _ & _ & Hctx & Hhist).
    assert (∃ got, history (activate md (adopt md (poll md w)))
                   = history (poll md w) ++ got
                   ∧ priority_queue (ctx (activate md (adopt md (poll md w))))
                     = priority_queue (ctx (poll md w))
                   ∧ alarm (ctx (activate md (adopt md (poll md w))))
                     = alarm (ctx (poll md w))) as (got & Hgot & Hq & Hal).
    { unfold activate.
      destruct (kv (ctx (adopt md (poll md w))) !! INSTANCE_METADATA); cbn;
        [| rewrite <- app_assoc]; eexists; (split; [reflexivity | done]). }
    rewrite Hgot, <- app_assoc in Hhist.
    split; [by eapply (polls_first_poll md) |].
    rewrite Hctx, Hq, Hal. split; [done |]. by rewrite Halarm, Htable.
  - intros c Hc. split; [by destruct c |].
    intros (built & popped & armed & tail & _ & Hhist).
    assert (length (history (world_of (invoke c w))) ≤ S (length (history w)))%nat
      as Hshort.
    { destruct c; try done; unfold invoke, readLogs, abort, userTriggeredTerminate;
        run_method; cbn [world_of history record with_this]; rewrite ?length_app; cbn [length]; lia. }
    rewrite Hhist, !length_app in Hshort. cbn in Hshort. lia.
Qed.

(** ** Abort and terminate *)

(** C8. [abort] and [userTriggeredTerminate] return at once and leave the
    whole world as it was: no status is written and no log entry is
    appended, for any reason string. *)
Theorem abort_changes_nothing reason w :
  abort reason w = Ret (Normal tt) w
  ∧ userTriggeredTerminate w = Ret (Normal tt) w
  ∧ status (this (world_of (abort reason w))) = status (this w)
  ∧ logs (this (world_of (abort reason w))) = logs (this w).
Proof. done. Qed.

(** ** The status accessors *)

(** C10. [getStatus] and [setStatus] do not look at [accountId] or
    [instanceId]: any two pairs of values give the same result and the same
    world, [getStatus] answers the in-memory status, and [setStatus] stores
    its status argument whichever instance the engine has adopted. *)
Theorem status_calls_ignore_identity a i a' i' st w :
  getStatus a i w = getStatus a' i' w
  ∧ getStatus a i w = Ret (Normal (status (this w))) w
  ∧ setStatus a i st w = setStatus a' i' st w
  ∧ completion_of (setStatus a i st w) = Some (Normal tt)
  ∧ status (this (world_of (setStatus a i st w))) = st
  ∧ instanceId (this (world_of (setStatus a i st w))) = instanceId (this w).
Proof. done. Qed.

(** ** Invariants of the actor *)

Lemma activate_table md w :
  priority_queue (ctx (activate md w)) = priority_queue (ctx w)
  ∧ alarm (ctx (activate md w)) = alarm (ctx w).
Proof. unfold activate. by destruct (kv (ctx w) !! INSTANCE_METADATA). Qed.

(** How an [init] call lands, seen through [invoke]. *)
Lemma invoke_init_cases a wf v i ev w :
  let md := metadata_of a wf v i ev in
  (isRunning (this w) = true
   ∧ invoke (CallInit a wf v i ev) w = Ret (Normal (InitReply None)) (poll md w))
  ∨ (isRunning (this w) = false ∧ is_terminal (status (this w)) = true
     ∧ invoke (CallInit a wf v i ev) w
       = Ret (Normal (InitReply None)) (adopt md (poll md w)))
  ∨ (isRunning (this w) = false ∧ is_terminal (status (this w)) = false
     ∧ ∃ k, invoke (CallInit a wf v i ev) w
            = Await ev (launch md (activate md (adopt md (poll md w)))) k
            ∧ init_waiter k).
Proof.
  intros md. unfold invoke, mbind, M_bind.
  destruct (isRunning (this w)) eqn:Hrun.
  { left. split; [done |]. by rewrite init_running. }
  destruct (is_terminal (status (this w))) eqn:Hterm.
  { right; left. do 2 (split; [done |]). by rewrite init_terminal. }
  right; right. do 2 (split; [done |]).
  destruct (init_suspends a wf v i ev w Hrun Hterm) as (k & -> & Hk).
  eexists. split; [reflexivity |].
  exists (InitReply (returned_id i)). intros o w'. by rewrite Hk.
Qed.

(** The calls other than [init] finish at once and leave the guard, the
    store and the clock alone. *)
Lemma invoke_other c w :
  match c with CallInit _ _ _ _ _ => False | _ => True end →
  ∃ r w', invoke c w = Ret r w'
          ∧ isRunning (this w') = isRunning (this w)
          ∧ ctx w' = ctx w
          ∧ status (this w')
            = match c with CallSetStatus _ _ st => st | _ => status (this w) end.
Proof. destruct c; try done; intros _; by do 2 eexists. Qed.

Lemma step_guarded a inp : guarded a → guarded (step a inp).
Proof.
  intros Hg. destruct inp as [c | n o | | | | |]; try exact Hg.
  - (* a call *)
    destruct c as [acc wf v i ev | | | | |].
    + destruct (invoke_init_cases acc wf v i ev (world a))
        as [(Hrun & Hinv) | [(Hrun & _ & Hinv) | (Hrun & _ & k & Hinv & Hk)]];
        unfold step; rewrite Hinv; cbn [land].
      * destruct Hg as [(Hoff & _) | (_ & Hw)]; [congruence |].
        right. split; [| exact Hw].
        cbn [world]. by rewrite (proj2 (proj2 (poll_this _ _))).
      * destruct Hg as [(_ & Hw) | (Hon & _)]; [| congruence].
        left. split; [| exact Hw].
        cbn [world]. exact (eq_trans (proj2 (proj2 (poll_this _ _))) Hrun).
      * destruct Hg as [(_ & Hw) | (Hon & _)]; [| congruence].
        right. split; [apply launch_this |].
        exists k. cbn [waiting]. by rewrite Hw.
    + destruct (invoke_other (CallGetStatus accountId0 instanceId0) (world a) I)
        as (r & w' & Hinv & Hrun & _).
      unfold step. rewrite Hinv. cbn [land]. unfold guarded. cbn. by rewrite Hrun.
    + destruct (invoke_other (CallSetStatus accountId0 instanceId0 status0) (world a) I)
        as (r & w' & Hinv & Hrun & _).
      unfold step. rewrite Hinv. cbn [land]. unfold guarded. cbn. by rewrite Hrun.
    + destruct (invoke_other CallReadLogs (world a) I) as (r & w' & Hinv & Hrun & _).
      unfold step. rewrite Hinv. cbn [land]. unfold guarded. cbn. by rewrite Hrun.
    + destruct (invoke_other (CallAbort reason) (world a) I)
        as (r & w' & Hinv & Hrun & _).
      unfold step. rewrite Hinv. cbn [land]. unfold guarded. cbn. by rewrite Hrun.
    + destruct (invoke_other CallUserTriggeredTerminate (world a) I)
        as (r & w' & Hinv & Hrun & _).
      unfold step. rewrite Hinv. cbn [land]. unfold guarded. cbn. by rewrite Hrun.
  - (* the workflow settles *)
    destruct Hg as [(Hoff & Hw) | (Hon & k & Hw & r & Hk)].
    + unfold step. rewrite Hw, lookup_nil. by left.
    + unfold step. rewrite Hw. destruct n as [| n].
      * cbn. rewrite Hk. cbn. left. split; [by destruct o | done].
      * assert ([k] !! S n = None) as -> by (by destruct n).
        right. split; [done |]. exists k. split; [done |]. by exists r.
Qed.

(** *** The table's constraints *)

Lemma next_id_bound t x : x ∈ Sql.ids t → x < Sql.next_id t.
Proof.
  unfold Sql.next_id. induction (Sql.ids t) as [| y ys IH]; cbn; [by inv 1 |].
  intros [-> | Hx]%elem_of_cons; [lia |]. specialize (IH Hx). lia.
Qed.

Lemma next_id_fresh t : Sql.next_id t ∉ Sql.ids t.
Proof. intros Hin%next_id_bound. lia. Qed.

Lemma insert_well_formed r t t' :
  Sql.well_formed t → Sql.insert r t = Some t' → Sql.well_formed t'.
Proof.
  intros (Hkeys & Hids & Hchecks). unfold Sql.insert, Sql.admissible.
  destruct (Row.check r) eqn:Hcheck; [| done]. cbn.
  case_bool_decide as Hkey; [| done]. case_bool_decide as Hid; [| done]. cbn.
  intros [= <-]. unfold Sql.well_formed, Sql.keys, Sql.ids. rewrite !fmap_app. cbn.
  repeat split.
  - apply NoDup_app. repeat split; [done | | apply NoDup_singleton].
    intros k Hk ->%list_elem_of_singleton. done.
  - apply NoDup_app. repeat split; [done | | apply NoDup_singleton].
    intros k Hk ->%list_elem_of_singleton. done.
  - apply Forall_app. split; [done |]. by constructor.
Qed.

Lemma insert_or_ignore_well_formed r t :
  Sql.well_formed t → Sql.well_formed (Sql.insert_or_ignore r t).
Proof.
  intros Hwf. unfold Sql.insert_or_ignore.
  destruct (Sql.insert r t) eqn:Hins; [by eapply insert_well_formed | done].
Qed.

Lemma delete_sublist doomed t : Sql.delete doomed t `sublist_of` t.
Proof. apply sublist_filter. Qed.

Lemma fmap_sublist {A B : Type} (f : A → B) (l1 l2 : list A) :
  l1 `sublist_of` l2 → (f <$> l1) `sublist_of` (f <$> l2).
Proof. induction 1; cbn; by constructor. Qed.

Lemma delete_well_formed doomed t :
  Sql.well_formed t → Sql.well_formed (Sql.delete doomed t).
Proof.
  intros (Hkeys & Hids & Hchecks). repeat split.
  - eapply sublist_NoDup; [exact Hkeys |]. apply fmap_sublist, delete_sublist.
  - eapply sublist_NoDup; [exact Hids |]. apply fmap_sublist, delete_sublist.
  - rewrite Forall_forall in Hchecks |- *. intros r Hr. apply Hchecks.
    eapply elem_of_sublist; [exact Hr | apply delete_sublist].
Qed.

(** A second [enqueue] for a key that already has its add-row does
    nothing. *)
Lemma enqueue_present now entryType hash ts s :
  (TimePriorityQueue.ADD, entryType, hash) ∈ Sql.keys (priority_queue s) →
  priority_queue (TimePriorityQueue.enqueue now entryType hash ts s) = priority_queue s.
Proof.
  intros Hin. unfold TimePriorityQueue.enqueue. cbn [priority_queue].
  unfold Sql.insert_or_ignore, Sql.insert, Sql.admissible.
  destruct (Row.check _); [| done]. cbn.
  case_bool_decide as Hkey; [| done]. by destruct Hkey.
Qed.

Lemma enqueue_adds now entryType hash ts s :
  (TimePriorityQueue.ADD, entryType, hash)
    ∈ Sql.keys (priority_queue (TimePriorityQueue.enqueue now entryType hash ts s)).
Proof.
  unfold TimePriorityQueue.enqueue. cbn [priority_queue].
  set (r := Row.Build_t _ _ _ _ _ _).
  unfold Sql.insert_or_ignore, Sql.insert, Sql.admissible.
  assert (Row.check r = true) as -> by done.
  change (Row.key r) with (TimePriorityQueue.ADD, entryType, hash).
  change (Row.id r) with (Sql.next_id (priority_queue s)).
  cbn [andb].
  case_bool_decide as Hkey; cbn.
  - rewrite bool_decide_eq_true_2 by apply next_id_fresh. cbn.
    unfold Sql.keys. rewrite fmap_app. apply elem_of_app. right. by left.
  - exact Hkey.
Qed.

Lemma step_table a inp :
  Sql.well_formed (table_of a) → guarded a → Sql.well_formed (table_of (step a inp)).
Proof.
  intros Hwf Hg. unfold table_of in *.
  destruct inp as [c | n o | entryType hash ts | r | r | doomed | dt]; cbn.
  - destruct c as [acc wf v i ev | | | | |]; try exact Hwf.
    set (md := metadata_of acc wf v i ev).
    assert (Sql.well_formed (priority_queue (ctx (poll md (world a))))) as Hpoll.
    { rewrite (proj1 (poll_table md (world a))). by apply delete_well_formed. }
    destruct (invoke_init_cases acc wf v i ev (world a))
      as [(_ & Hinv) | [(_ & _ & Hinv) | (_ & _ & k & Hinv & _)]];
      unfold step; rewrite Hinv; cbn [land world]; try exact Hpoll.
    rewrite (proj1 (proj2 (proj2 (proj2 (launch_this md _))))).
    by rewrite (proj1 (activate_table md _)).
  - destruct Hg as [(_ & Hw) | (_ & k & Hw & r & Hk)]; rewrite Hw.
    + by rewrite lookup_nil.
    + destruct n as [| n].
      * cbn. rewrite Hk. cbn. by destruct o.
      * by assert ([k] !! S n = None) as -> by (by destruct n).
  - by apply insert_or_ignore_well_formed.
  - destruct (Sql.insert r _) eqn:Hins; cbn; [by eapply insert_well_formed | done].
  - by apply insert_or_ignore_well_formed.
  - by apply delete_well_formed.
  - done.
Qed.

Lemma run_snoc a inputs inp : run a (inputs ++ [inp]) = step (run a inputs) inp.
Proof. apply foldl_snoc. Qed.

Lemma run_guarded a inputs : guarded a → guarded (run a inputs).
Proof.
  intros Hg. induction inputs as [| inp inputs IH] using rev_ind; [done |].
  rewrite run_snoc. by apply step_guarded.
Qed.

Lemma boot_guarded T clock state : guarded (boot T clock state).
Proof. by left. Qed.

Lemma run_table T clock state inputs :
  Sql.well_formed (priority_queue state) →
  Sql.well_formed (table_of (run (boot T clock state) inputs)).
Proof.
  intros Hwf. induction inputs as [| inp inputs IH] using rev_ind; [done |].
  rewrite run_snoc. apply step_table; [exact IH |].
  apply run_guarded, boot_guarded.
Qed.

Lemma absent_key_no_row (t : list Row.t) (key : Z * Z * string) :
  key ∉ Sql.keys t → filter (λ r, Row.key r = key) t = [].
Proof.
  unfold Sql.keys. induction t as [| r t IH]; [done |].
  rewrite fmap_cons, filter_cons. intros [Hne Hrest]%not_elem_of_cons.
  destruct (decide (Row.key r = key)); [congruence | by apply IH].
Qed.

Lemma unique_key_one_row (t : list Row.t) (key : Z * Z * string) :
  NoDup (Sql.keys t) → (length (filter (λ r, Row.key r = key) t) ≤ 1)%nat.
Proof.
  unfold Sql.keys. induction t as [| r t IH]; [cbn; lia |].
  rewrite fmap_cons, filter_cons. intros [Hfresh Hrest]%NoDup_cons.
  destruct (decide (Row.key r = key)) as [<- | Hne]; [| by apply IH].
  rewrite (absent_key_no_row t (Row.key r) Hfresh). cbn. lia.
Qed.

(** C9. From a stored table that satisfies its schema, whatever the
    sequence of calls, workflow settlements, scheduling requests, raw
    inserts and deletes, and clock ticks, the [priority_queue] table holds
    at most one row for each [(action, entryType, hash)]; and a scheduling
    request replayed for the same key leaves the table as the first one
    made it. *)
Theorem priority_queue_keys_unique T clock state inputs :
  Sql.well_formed (priority_queue state) →
  let a := run (boot T clock state) inputs in
  NoDup (Sql.keys (table_of a))
  ∧ (∀ key, (length (filter (λ r, Row.key r = key) (table_of a)) ≤ 1)%nat)
  ∧ (∀ entryType hash ts ts',
       table_of (step (step a (Enqueue entryType hash ts)) (Enqueue entryType hash ts'))
       = table_of (step a (Enqueue entryType hash ts))).
Proof.
  intros Hwf a.
  destruct (run_table T clock state inputs Hwf) as (Hkeys & _).
  split; [exact Hkeys |]. split.
  - intros key. by apply unique_key_one_row.
  - intros entryType hash ts ts'.
    exact (enqueue_present (now (world a)) entryType hash ts' _
             (enqueue_adds (now (world a)) entryType hash ts (ctx (world a)))).
Qed.

(** ** The status state machine *)

Lemma step_status a inp :
  guarded a → running_in_flight a → is_setStatus inp = false →
  advances (status_of a) (status_of (step a inp)) ∧ running_in_flight (step a inp).
Proof.
  intros Hg Hfl Hinp. unfold running_in_flight, status_of in *.
  destruct inp as [c | n o | | | | |]; try (split; [by left | exact Hfl]).
  - destruct c as [acc wf v i ev | | | | |]; try done;
      try (split; [by left | exact Hfl]).
    set (md := metadata_of acc wf v i ev).
    destruct (poll_this md (world a)) as (_ & Hst & Hrun').
    destruct (invoke_init_cases acc wf v i ev (world a))
      as [(Hrun & Hinv) | [(Hrun & _ & Hinv) | (Hrun & Hterm & k & Hinv & _)]];
      unfold step; rewrite Hinv; cbn [land world]; fold md.
    + rewrite Hst, Hrun'. split; [by left | exact Hfl].
    + change (status (this (adopt md (poll md (world a)))))
        with (status (this (poll md (world a)))).
      change (isRunning (this (adopt md (poll md (world a)))))
        with (isRunning (this (poll md (world a)))).
      rewrite Hst, Hrun'. split; [by left | exact Hfl].
    + rewrite (proj1 (launch_this md _)). split; [| done].
      destruct (status (this (world a))); try (by vm_compute in Hterm);
        [right; left | left]; done.
  - destruct Hg as [(_ & Hw) | (Hon & k & Hw & r & Hk)]; unfold step; rewrite Hw.
    + rewrite lookup_nil. split; [by left | exact Hfl].
    + destruct n as [| n].
      * cbn. rewrite Hk. cbn [land world]. rewrite (Hfl Hon).
        split; [| by destruct o].
        right; right. split; [done |]. destruct o; cbn; set_solver.
      * assert ([k] !! S n = None) as -> by (by destruct n).
        split; [by left | exact Hfl].
Qed.

Lemma run_running_in_flight T clock state inputs :
  Forall (λ inp, is_setStatus inp = false) inputs →
  running_in_flight (run (boot T clock state) inputs).
Proof.
  induction inputs as [| inp inputs IH] using rev_ind; [done |].
  intros [Hinputs Hinp]%Forall_app. rewrite Forall_singleton in Hinp.
  rewrite run_snoc.
  apply step_status; [apply run_guarded, boot_guarded | by apply IH | exact Hinp].
Qed.

(** C5. Starting from a newly constructed engine and as long as no
    [setStatus] call is made, every call, workflow settlement, scheduling
    request and clock tick either leaves the status alone or moves it one
    step along [Queued -> Running -> {Complete, Errored, Terminated}]; in
    particular a terminal status never changes. *)
Theorem status_advances_without_setStatus T clock state inputs inp :
  Forall (λ i, is_setStatus i = false) inputs →
  is_setStatus inp = false →
  let a := run (boot T clock state) inputs in
  advances (status_of a) (status_of (step a inp))
  ∧ (is_terminal (status_of a) = true → status_of (step a inp) = status_of a).
Proof.
  intros Hinputs Hinp a.
  assert (advances (status_of a) (status_of (step a inp))) as Hadv.
  { apply step_status; [apply run_guarded, boot_guarded | | exact Hinp].
    by apply run_running_in_flight. }
  split; [exact Hadv |]. intros Hterm.
  destruct Hadv as [Heq | [(Hq & _) | (Hr & _)]]; [exact Heq | |].
  - rewrite Hq in Hterm. by vm_compute in Hterm.
  - rewrite Hr in Hterm. by vm_compute in Hterm.
Qed.

(** * Worked instances *)

Lemma fresh_engine_success_run :
  ∃ w_run w_end k,
    init 1 wf1 ver1 inst1 ev1 fresh = Await ev1 w_run k
    ∧ status (this w_run) = Running
    ∧ k (Resolved (JsString "ok")) w_run = Ret (Normal (returned_id inst1)) w_end
    ∧ status (this fresh)
        :: status_writes (added (history fresh) (history w_end))
      = [Queued; Running; Complete].
Proof.
  destruct (init_success_path 1 wf1 ver1 inst1 ev1 fresh (JsString "ok"))
    as (w_run & k & Hinit & Hst & _ & w_end & Hk & _ & Htrace);
    [reflexivity | reflexivity |].
  exists w_run, w_end, k. repeat split; try assumption. apply Htrace. reflexivity.
Defined.

Lemma fresh_engine_failure_run :
  ∃ w_end,
    resume (init 1 wf1 ver1 inst1 ev1 fresh) (Rejected (JsError "TypeError" "boom")) busy
    = Ret (Normal (returned_id inst1)) w_end
    ∧ status (this w_end) = Errored
    ∧ logs (this w_end)
      = logs (this busy) ++ [failure_entry (JsError "TypeError" "boom")]
    ∧ normalize_error (JsError "TypeError" "boom")
      = JsObject [("message", JsString "boom"); ("name", JsString "TypeError")].
Proof.
  destruct (init 1 wf1 ver1 inst1 ev1 fresh) as [c w | ev' w_run k] eqn:Hinit.
  - exfalso. vm_compute in Hinit. discriminate Hinit.
  - destruct (init_failure_contained 1 wf1 ver1 inst1 ev1 fresh ev' w_run k
                (JsError "TypeError" "boom") Hinit busy)
      as (w_end & Hk & Hlogs & _ & _ & _ & Hnorm & Hst & _).
    exists w_end. cbn [resume]. repeat split; assumption.
Defined.

Lemma fresh_engine_second_init :
  logs (this busy) = [queued_entry (metadata_of 1 wf1 ver1 inst1 ev1); start_entry]
  ∧ completion_of (init 1 wf1 ver1 inst1 ev1 busy) = Some (Normal None)
  ∧ logs (this (world_of (init 1 wf1 ver1 inst1 ev1 busy))) = logs (this busy).
Proof.
  destruct (init_twice_activates_once 1 wf1 ver1 inst1 ev1 fresh)
    as (Hfirst & _ & _ & _ & Hsecond & Hlogs & _);
    [reflexivity | reflexivity | reflexivity |].
  repeat split; assumption.
Defined.

Lemma overdue_engine_polling :
  priority_queue (ctx overdue) ≠ []
  ∧ priority_queue (ctx (world_of (init 1 wf1 ver1 inst1 ev1 overdue))) = []
  ∧ ctx (world_of (invoke (CallGetStatus 1 "run-1") overdue)) = ctx overdue.
Proof.
  destruct (only_init_polls_queue overdue) as (Hinit & Hother).
  destruct (Hinit 1 wf1 ver1 inst1 ev1) as (_ & Htable & _).
  destruct (Hother (CallGetStatus 1 "run-1") I) as (Hctx & _).
  split; [intros Hempty; vm_compute in Hempty; discriminate Hempty |].
  split; [| exact Hctx].
  rewrite Htable. reflexivity.
Defined.

Lemma replayed_enqueue_unique :
  Sql.well_formed (priority_queue empty_storage)
  ∧ NoDup (Sql.keys (table_of (run (boot 30000 0 empty_storage)
                                 [Enqueue 1 "sleep-1" 1000; Enqueue 1 "sleep-1" 1000]))).
Proof.
  assert (Sql.well_formed (priority_queue empty_storage)) as Hwf.
  { repeat split; constructor. }
  split; [exact Hwf |].
  apply (priority_queue_keys_unique 30000 0 empty_storage
           [Enqueue 1 "sleep-1" 1000; Enqueue 1 "sleep-1" 1000] Hwf).
Defined.

Lemma completed_actor_stays_complete :
  status_of completed = Complete
  ∧ status_of (step completed (Invoke (CallInit 1 wf1 ver1 inst1 ev1)))
    = status_of completed.
Proof.
  split; [reflexivity |].
  apply (status_advances_without_setStatus 30000 0 empty_storage
           [Invoke (CallInit 1 wf1 ver1 inst1 ev1); Settle 0 (Resolved (JsString "ok"))]
           (Invoke (CallInit 1 wf1 ver1 inst1 ev1))).
  - repeat constructor.
  - reflexivity.
  - reflexivity.
Defined.

(** With [setStatus] among the calls the status does leave a terminal
    value: after a completed run, [setStatus(_, _, Queued)] puts the
    instance back to [Queued]. *)
Lemma setStatus_leaves_terminal :
  status_of completed = Complete
  ∧ status_of (step completed (Invoke (CallSetStatus 1 "run-1" Queued))) = Queued
  ∧ ¬ advances (status_of completed)
        (status_of (step completed (Invoke (CallSetStatus 1 "run-1" Queued)))).
Proof.
  split; [reflexivity |]. split; [reflexivity |].
  change (¬ advances Complete Queued).
  intros [Heq | [(Heq & _) | (Heq & _)]]; discriminate Heq.
Qed.

(** On both early-return paths [init] returns nothing, not
    [{id: instance.name}]. *)
Lemma init_early_return_is_undefined :
  completion_of (init 1 wf1 ver1 inst1 ev1 busy) = Some (Normal None)
  ∧ completion_of (init 1 wf1 ver1 inst1 ev1 finished) = Some (Normal None)
  ∧ completion_of (init 1 wf1 ver1 inst1 ev1 busy) ≠ Some (Normal (returned_id inst1)).
Proof.
  split; [reflexivity |]. split; [reflexivity |].
  intros Heq. vm_compute in Heq. discriminate Heq.
Qed.

(** [getStatus] on an engine with a due timer: the timer is still in the
    table afterwards and nothing was drained or re-armed. *)
Lemma getStatus_does_not_poll :
  filter (λ r, TimePriorityQueue.due (now overdue) r = true) (priority_queue (ctx overdue))
    ≠ []
  ∧ priority_queue (ctx (world_of (invoke (CallGetStatus 1 "run-1") overdue)))
    = priority_queue (ctx overdue)
  ∧ alarm (ctx (world_of (invoke (CallGetStatus 1 "run-1") overdue))) = None
  ∧ history (world_of (invoke (CallGetStatus 1 "run-1") overdue)) = []
  ∧ ¬ polls_first overdue (world_of (invoke (CallGetStatus 1 "run-1") overdue)).
Proof.
  split; [intros Hnone; vm_compute in Hnone; discriminate Hnone |].
  do 3 (split; [reflexivity |]).
  intros (built & popped & armed & tail & _ & Hhist).
  change (@nil Effect = [] ++ built
          ++ [EvPopPastEntries popped; EvHandleNextAlarm armed] ++ tail) in Hhist.
  destruct built; discriminate Hhist.
Qed.

(** [abort] during a run in flight: still [Running], still two entries. *)
Example abort_on_busy_run :
  status (this (world_of (abort "stop" busy))) = Running
  ∧ isRunning (this (world_of (abort "stop" busy))) = true
  ∧ LogEntry.event <$> logs (this (world_of (abort "stop" busy)))
    = [WORKFLOW_QUEUED; WORKFLOW_START]
  ∧ history (world_of (abort "stop" busy)) = history busy.
Proof. repeat split; reflexivity. Qed.

(** The queue's own examples: three timers drained in timestamp order, and
    a scheduling request made twice. *)
Example drain_order :
  Row.target_timestamp
    <$> (TimePriorityQueue.popPastEntries 100
           (TimePriorityQueue.enqueue 0 1 "c" 30
              (TimePriorityQueue.enqueue 0 1 "b" 10
                 (TimePriorityQueue.enqueue 0 1 "a" 50 empty_storage)))).1
  = [10; 30; 50].
Proof. vm_compute. reflexivity. Qed.

Example enqueue_twice :
  Row.key
    <$> priority_queue
          (TimePriorityQueue.enqueue 5 1 "H" 1000
             (TimePriorityQueue.enqueue 0 1 "H" 1000 empty_storage))
  = [(TimePriorityQueue.ADD, 1, "H")].
Proof. vm_compute. reflexivity. Qed.

(** * Further properties of the engine *)

(** ** Eviction and restart *)

(** X1. An engine built over a store that already holds the instance
    metadata remembers neither the status nor the log of the run before:
    its [init] calls the user workflow again, with [Running] written and an
    empty log, and neither rewrites the stored metadata nor appends
    [WORKFLOW_QUEUED] or [WORKFLOW_START], whatever arguments it is given. *)
Theorem restarted_engine_runs_again T a wf v i ev w stored :
  kv (ctx w) !! INSTANCE_METADATA = Some stored →
  ∃ w_run k,
    init a wf v i ev (constructor T (now w) (ctx w)) = Await ev w_run k
    ∧ status (this w_run) = Running
    ∧ logs (this w_run) = []
    ∧ kv (ctx w_run) = kv (ctx w)
    ∧ metadata_writes (history w_run) = [].
Proof.
  intros Hslot. set (w0 := constructor T (now w) (ctx w)).
  set (md := metadata_of a wf v i ev).
  destruct (init_suspends a wf v i ev w0 eq_refl eq_refl) as (k & Hinit & _).
  fold md in Hinit.
  exists (launch md (activate md (adopt md (poll md w0)))), k.
  split; [exact Hinit |].
  destruct (launch_this md (activate md (adopt md (poll md w0))))
    as (Hst & _ & Hlogs & Hctx & Hhist).
  assert (is_Some (kv (ctx (adopt md (poll md w0))) !! INSTANCE_METADATA)) as Hsome.
  { change (is_Some (kv (ctx (poll md w0)) !! INSTANCE_METADATA)).
    rewrite poll_kv. by exists stored. }
  destruct (activate_again md _ Hsome) as (Hlogs' & Hhist' & Hkv).
  split; [exact Hst |]. split.
  { rewrite Hlogs, Hlogs'. exact (proj1 (poll_this md w0)). }
  split.
  { rewrite Hctx, Hkv. exact (poll_kv md w0). }
  rewrite Hhist, Hhist'. rewrite 2!metadata_writes_app.
  change (history (adopt md (poll md w0))) with (history (poll md w0)).
  destruct (poll_quiet md w0) as (Hquiet & _).
  change (metadata_writes (history (poll md w0)) = []) in Hquiet.
  by rewrite Hquiet.
Qed.

Lemma finished_engine_restart :
  status (this finished) = Complete
  ∧ ∃ w_run k,
      init 1 wf1 ver1 inst1 ev1 (constructor 30000 (now finished) (ctx finished))
      = Await ev1 w_run k
      ∧ logs (this w_run) = [].
Proof.
  split; [reflexivity |].
  destruct (restarted_engine_runs_again 30000 1 wf1 ver1 inst1 ev1 finished
              (metadata_of 1 wf1 ver1 inst1 ev1))
    as (w_run & k & Hinit & _ & Hlogs & _); [reflexivity |].
  exists w_run, k. split; assumption.
Defined.

(** ** One input at a time *)

Lemma step_move a inp :
  guarded a → is_setStatus inp = false → Move (world a) (world (step a inp)).
Proof.
  intros Hg Hinp.
  destruct inp as [c | n o | entryType hash ts | r | r | doomed | dt].
  - destruct c as [acc wf v i ev | | | | |]; try done; try apply MoveNothing.
    destruct (invoke_init_cases acc wf v i ev (world a))
      as [(Hrun & Hinv) | [(Hrun & Hterm & Hinv) | (Hrun & Hterm & k & Hinv & _)]];
      unfold step; rewrite Hinv; cbn [land world];
      [by apply MoveGuard | by apply MoveTerminal | by apply MoveLaunch].
  - destruct Hg as [(_ & Hw) | (Hon & k & Hw & r & Hk)]; unfold step; rewrite Hw.
    + rewrite lookup_nil. apply MoveNothing.
    + destruct n as [| n].
      * cbn. rewrite Hk. cbn [land world]. by apply MoveConclude.
      * assert ([k] !! S n = None) as -> by (by destruct n). apply MoveNothing.
  - apply (MoveTable (λ t, priority_queue
                             (TimePriorityQueue.enqueue (now (world a)) entryType hash ts
                                {| kv := kv (ctx (world a)); priority_queue := t;
                                   alarm := alarm (ctx (world a)) |}))).
  - apply (MoveTable (λ t, default t (Sql.insert r t))).
  - apply (MoveTable (Sql.insert_or_ignore r)).
  - apply (MoveTable (Sql.delete doomed)).
  - apply MoveClock.
Qed.

Lemma step_setStatus a acc i st :
  world (step a (Invoke (CallSetStatus acc i st)))
  = record (EvSetStatus st) (with_this (set_status st) (world a)).
Proof. reflexivity. Qed.

Lemma is_setStatus_true inp :
  is_setStatus inp = true → ∃ acc i st, inp = Invoke (CallSetStatus acc i st).
Proof. destruct inp as [[] | | | | | |]; try done. intros _. eauto. Qed.

Lemma happen_guarded a h : guarded a → guarded (happen a h).
Proof. destruct h; [apply step_guarded | by left]. Qed.

Lemma live_guarded a hs : guarded a → guarded (live a hs).
Proof.
  intros Hg. induction hs as [| h hs IH] using rev_ind; [done |].
  unfold live. rewrite foldl_snoc. by apply happen_guarded.
Qed.

Lemma live_app a hs1 hs2 : live a (hs1 ++ hs2) = live (live a hs1) hs2.
Proof. apply foldl_app. Qed.

Lemma run_app a inputs1 inputs2 : run a (inputs1 ++ inputs2) = run (run a inputs1) inputs2.
Proof. apply foldl_app. Qed.

Lemma poll_queue md w :
  priorityQueue (this (poll md w))
  = Some (default {| TimePriorityQueue.bound := md |} (priorityQueue (this w))).
Proof.
  unfold poll, bind_queue.
  destruct (priorityQueue (this w)) eqn:Hqueue; [exact Hqueue | done].
Qed.

Lemma activate_queue md w :
  priorityQueue (this (activate md w)) = priorityQueue (this w)
  ∧ accountId (this (activate md w)) = accountId (this w)
  ∧ instanceId (this (activate md w)) = instanceId (this w)
  ∧ workflowName (this (activate md w)) = workflowName (this w).
Proof. unfold activate. by destruct (kv (ctx w) !! INSTANCE_METADATA). Qed.

Lemma workflow_calls_app h1 h2 :
  workflow_calls (h1 ++ h2) = workflow_calls h1 ++ workflow_calls h2.
Proof. apply omap_app. Qed.

Lemma poll_calls md w :
  workflow_calls (history (poll md w)) = workflow_calls (history w).
Proof.
  destruct (poll_history md w) as (built & Hbuilt & ->).
  rewrite 2!workflow_calls_app.
  destruct Hbuilt as [-> | ->]; cbn; rewrite ?app_nil_r; reflexivity.
Qed.

Lemma activate_calls md w :
  workflow_calls (history (activate md w)) = workflow_calls (history w).
Proof.
  unfold activate. destruct (kv (ctx w) !! INSTANCE_METADATA); cbn.
  - rewrite workflow_calls_app. cbn. rewrite ?app_nil_r. reflexivity.
  - rewrite 2!workflow_calls_app. cbn. rewrite ?app_nil_r. reflexivity.
Qed.

(** ** The metadata slot *)

Lemma move_keeps_metadata w w' stored :
  Move w w' →
  kv (ctx w) !! INSTANCE_METADATA = Some stored →
  kv (ctx w') !! INSTANCE_METADATA = Some stored.
Proof.
  intros Hmove Hslot.
  destruct Hmove as [md w _ | md w _ _ | md w _ _ | o w _ | f w | t w | w];
    try exact Hslot.
  - by rewrite poll_kv.
  - change (kv (ctx (poll md w)) !! INSTANCE_METADATA = Some stored).
    by rewrite poll_kv.
  - rewrite (proj1 (proj2 (proj2 (proj2 (launch_this md _))))).
    assert (is_Some (kv (ctx (adopt md (poll md w))) !! INSTANCE_METADATA)) as Hsome.
    { change (is_Some (kv (ctx (poll md w)) !! INSTANCE_METADATA)).
      rewrite poll_kv. by exists stored. }
    rewrite (proj2 (proj2 (activate_again md _ Hsome))).
    change (kv (ctx (poll md w)) !! INSTANCE_METADATA = Some stored).
    by rewrite poll_kv.
  - by destruct o.
Qed.

Lemma happen_keeps_metadata a h stored :
  guarded a →
  kv (ctx (world a)) !! INSTANCE_METADATA = Some stored →
  kv (ctx (world (happen a h))) !! INSTANCE_METADATA = Some stored.
Proof.
  intros Hg Hslot. destruct h as [inp | T]; [| exact Hslot].
  destruct (is_setStatus inp) eqn:Hinp.
  - destruct (is_setStatus_true inp Hinp) as (acc & i & st & ->). exact Hslot.
  - by eapply move_keeps_metadata; [apply step_move |].
Qed.

(** X2. The instance metadata is written once: from the moment the slot is
    filled, no sequence of calls, settlements, timer requests, clock ticks
    and evictions changes it, whichever arguments later [init] calls
    carry. *)
Theorem metadata_never_overwritten T clock state hs1 hs2 stored :
  kv (ctx (world (live (boot T clock state) hs1))) !! INSTANCE_METADATA = Some stored →
  kv (ctx (world (live (boot T clock state) (hs1 ++ hs2)))) !! INSTANCE_METADATA
  = Some stored.
Proof.
  intros Hslot. rewrite live_app.
  assert (guarded (live (boot T clock state) hs1)) as Hg
    by apply live_guarded, boot_guarded.
  revert Hslot Hg. generalize (live (boot T clock state) hs1). intros a Hslot Hg.
  induction hs2 as [| h hs2 IH] using rev_ind; [exact Hslot |].
  unfold live in *. rewrite foldl_snoc.
  apply happen_keeps_metadata; [by apply live_guarded | exact IH].
Qed.

(** ** The log *)

Lemma move_extends_logs w w' : Move w w' → logs (this w) `prefix_of` logs (this w').
Proof.
  intros Hmove.
  destruct Hmove as [md w _ | md w _ _ | md w _ _ | o w _ | f w | t w | w];
    try done.
  - by rewrite (proj1 (poll_this md w)).
  - change (logs (this w) `prefix_of` logs (this (poll md w))).
    by rewrite (proj1 (poll_this md w)).
  - rewrite (proj1 (proj2 (proj2 (launch_this md _)))).
    destruct (kv (ctx (adopt md (poll md w))) !! INSTANCE_METADATA) eqn:Hslot.
    + rewrite (proj1 (activate_again md _ (mk_is_Some _ _ Hslot))).
      change (logs (this w) `prefix_of` logs (this (poll md w))).
      by rewrite (proj1 (poll_this md w)).
    + rewrite (proj1 (activate_first md _ Hslot)).
      change (logs (this w) `prefix_of` logs (this (poll md w)) ++ [queued_entry md; start_entry]).
      rewrite (proj1 (poll_this md w)). by apply prefix_app_r.
  - destruct (conclude_resolved (match o with Resolved r => r | Rejected e => e end) w)
      as (_ & _ & Hres & _).
    destruct (conclude_rejected (match o with Resolved r => r | Rejected e => e end) w)
      as (_ & _ & Hrej & _).
    destruct o; [rewrite Hres | rewrite Hrej]; by apply prefix_app_r.
Qed.

(** X3. The log is append-only while the object lives: whatever calls,
    settlements, timer requests and clock ticks follow, the entries
    already written stay, in their order, at the front of the log. *)
Theorem log_is_append_only T clock state inputs1 inputs2 :
  logs (this (world (run (boot T clock state) inputs1)))
  `prefix_of` logs (this (world (run (boot T clock state) (inputs1 ++ inputs2)))).
Proof.
  rewrite run_app.
  assert (guarded (run (boot T clock state) inputs1)) as Hg
    by apply run_guarded, boot_guarded.
  revert Hg. generalize (run (boot T clock state) inputs1). intros a Hg.
  induction inputs2 as [| inp inputs2 IH] using rev_ind; [done |].
  rewrite run_snoc. etrans; [exact IH |].
  destruct (is_setStatus inp) eqn:Hinp.
  - destruct (is_setStatus_true inp Hinp) as (acc & i & st & ->). done.
  - apply move_extends_logs, step_move; [by apply run_guarded | exact Hinp].
Qed.

(** ** Runs in flight *)

(** X4. However calls, settlements and evictions interleave, at most one
    [init] waits for the user workflow at a time, and the guard is set
    exactly while one does. *)
Theorem at_most_one_run_in_flight T clock state hs :
  let a := live (boot T clock state) hs in
  (length (waiting a) ≤ 1)%nat
  ∧ (isRunning (this (world a)) = true ↔ waiting a ≠ []).
Proof.
  intros a.
  destruct (live_guarded (boot T clock state) hs (boot_guarded T clock state))
    as [(Hoff & Hw) | (Hon & k & Hw & _)]; subst a; rewrite Hw.
  - rewrite Hoff. cbn. split; [lia |]. by split.
  - rewrite Hon. cbn. split; [lia |]. by split.
Qed.

(** What one engine has done with the workflow: not called it yet, or
    called it once and is waiting or finished. *)
Lemma move_single_call w w' :
  Move w w' →
  (workflow_calls (history w) = [] ∧ isRunning (this w) = false
   ∧ status (this w) = Queued)
  ∨ (length (workflow_calls (history w)) = 1%nat
     ∧ (isRunning (this w) = true ∨ is_terminal (status (this w)) = true)) →
  (workflow_calls (history w') = [] ∧ isRunning (this w') = false
   ∧ status (this w') = Queued)
  ∨ (length (workflow_calls (history w')) = 1%nat
     ∧ (isRunning (this w') = true ∨ is_terminal (status (this w')) = true)).
Proof.
  intros Hmove Hj.
  destruct Hmove as [md w Hrun | md w Hrun Hterm | md w Hrun Hterm | o w Hrun
                     | f w | t w | w]; try exact Hj.
  - destruct (poll_this md w) as (_ & Hst & Hrun').
    rewrite poll_calls, Hst, Hrun'. exact Hj.
  - destruct (poll_this md w) as (_ & Hst & Hrun').
    change (history (adopt md (poll md w))) with (history (poll md w)).
    change (isRunning (this (adopt md (poll md w))))
      with (isRunning (this (poll md w))).
    change (status (this (adopt md (poll md w)))) with (status (this (poll md w))).
    rewrite poll_calls, Hst, Hrun'. exact Hj.
  - right.
    destruct (launch_this md (activate md (adopt md (poll md w))))
      as (_ & Hguard & _ & _ & Hhist).
    rewrite Hhist, workflow_calls_app, activate_calls.
    change (history (adopt md (poll md w))) with (history (poll md w)).
    rewrite poll_calls, Hguard.
    destruct Hj as [(Hnone & _) | (_ & [Hon | Hdone])]; [| congruence ..].
    rewrite Hnone. split; [done | by left].
  - destruct Hj as [(_ & Hoff & _) | (Hone & _)]; [congruence |].
    right. split; [| right; by destruct o].
    destruct o; cbn; rewrite !workflow_calls_app; cbn; by rewrite !app_nil_r.
Qed.

(** X5. While no [setStatus] call is made and the object is not evicted,
    the engine calls the user workflow at most once in its life, however
    often [init] is called and whenever the workflow settles. *)
Theorem workflow_called_at_most_once T clock state inputs :
  Forall (λ inp, is_setStatus inp = false) inputs →
  (length (workflow_calls (history (world (run (boot T clock state) inputs)))) ≤ 1)%nat.
Proof.
  intros Hinputs.
  assert ((workflow_calls (history (world (run (boot T clock state) inputs))) = []
           ∧ isRunning (this (world (run (boot T clock state) inputs))) = false
           ∧ status (this (world (run (boot T clock state) inputs))) = Queued)
          ∨ (length (workflow_calls
                       (history (world (run (boot T clock state) inputs)))) = 1%nat
             ∧ (isRunning (this (world (run (boot T clock state) inputs))) = true
                ∨ is_terminal (status (this (world (run (boot T clock state) inputs))))
                  = true))) as Hj.
  { induction inputs as [| inp inputs IH] using rev_ind; [by left |].
    apply Forall_app in Hinputs as [Hinputs Hinp]. rewrite Forall_singleton in Hinp.
    rewrite run_snoc. eapply move_single_call; [| by apply IH].
    apply step_move; [apply run_guarded, boot_guarded | exact Hinp]. }
  destruct Hj as [(-> & _) | (-> & _)]; cbn; lia.
Qed.

Lemma metadata_survives_eviction :
  kv (ctx (world (live (boot 30000 0 empty_storage)
                    [Plain (Invoke (CallInit 1 wf1 ver1 inst1 ev1));
                     Evicted 30000;
                     Plain (Invoke (CallInit 2 wf1 ver1 inst1 ev1))])))
    !! INSTANCE_METADATA
  = Some (metadata_of 1 wf1 ver1 inst1 ev1).
Proof.
  apply (metadata_never_overwritten 30000 0 empty_storage
           [Plain (Invoke (CallInit 1 wf1 ver1 inst1 ev1))]
           [Evicted 30000; Plain (Invoke (CallInit 2 wf1 ver1 inst1 ev1))]).
  vm_compute. reflexivity.
Defined.

Lemma three_inits_one_call :
  (length (workflow_calls
             (history (world (run (boot 30000 0 empty_storage)
                                [Invoke (CallInit 1 wf1 ver1 inst1 ev1);
                                 Invoke (CallInit 1 wf1 ver1 inst1 ev1);
                                 Settle 0 (Rejected JsNull);
                                 Invoke (CallInit 1 wf1 ver1 inst1 ev1)])))) ≤ 1)%nat.
Proof.
  apply (workflow_called_at_most_once 30000 0 empty_storage).
  repeat constructor.
Defined.

(** ** The queue and the adopted identity *)

Lemma move_keeps_queue w w' q :
  Move w w' → priorityQueue (this w) = Some q → priorityQueue (this w') = Some q.
Proof.
  intros Hmove Hq.
  destruct Hmove as [md w _ | md w _ _ | md w _ _ | o w _ | f w | t w | w];
    try exact Hq.
  - by rewrite poll_queue, Hq.
  - change (priorityQueue (this (poll md w)) = Some q). by rewrite poll_queue, Hq.
  - change (priorityQueue (this (activate md (adopt md (poll md w)))) = Some q).
    rewrite (proj1 (activate_queue md _)).
    change (priorityQueue (this (poll md w)) = Some q). by rewrite poll_queue, Hq.
  - by destruct o.
Qed.

(** X6. The timer queue is bound once per object: an [init] that finds no
    queue binds one to its own arguments, an [init] that finds one keeps
    it, and no later call, settlement, timer request or clock tick rebinds
    or drops it. *)
Theorem queue_bound_once T clock state inputs1 inputs2 q :
  (∀ a wf v i ev w,
     priorityQueue (this (world_of (init a wf v i ev w)))
     = Some (default {| TimePriorityQueue.bound := metadata_of a wf v i ev |}
               (priorityQueue (this w))))
  ∧ (priorityQueue (this (world (run (boot T clock state) inputs1))) = Some q →
     priorityQueue (this (world (run (boot T clock state) (inputs1 ++ inputs2))))
     = Some q).
Proof.
  split.
  - intros a wf v i ev w. set (md := metadata_of a wf v i ev).
    destruct (isRunning (this w)) eqn:Hrun.
    { rewrite init_running by done. apply poll_queue. }
    destruct (is_terminal (status (this w))) eqn:Hterm.
    { rewrite init_terminal by done. apply (poll_queue md w). }
    destruct (init_suspends a wf v i ev w Hrun Hterm) as (k & -> & _).
    fold md. cbn [world_of].
    change (priorityQueue (this (activate md (adopt md (poll md w)))) = Some
              (default {| TimePriorityQueue.bound := md |} (priorityQueue (this w)))).
    rewrite (proj1 (activate_queue md _)). apply (poll_queue md w).
  - intros Hq. rewrite run_app.
    assert (guarded (run (boot T clock state) inputs1)) as Hg
      by apply run_guarded, boot_guarded.
    revert Hq Hg. generalize (run (boot T clock state) inputs1). intros a Hq Hg.
    induction inputs2 as [| inp inputs2 IH] using rev_ind; [exact Hq |].
    rewrite run_snoc.
    destruct (is_setStatus inp) eqn:Hinp.
    + destruct (is_setStatus_true inp Hinp) as (acc & i & st & ->). exact IH.
    + eapply move_keeps_queue; [| exact IH].
      apply step_move; [by apply run_guarded | exact Hinp].
Qed.

Lemma queue_keeps_first_binding :
  priorityQueue
    (this (world (run (boot 30000 0 empty_storage)
                    [Invoke (CallInit 1 wf1 ver1 inst1 ev1);
                     Settle 0 (Resolved JsNull);
                     Invoke (CallInit 2 wf1 ver1 inst1 ev1)])))
  = Some {| TimePriorityQueue.bound := metadata_of 1 wf1 ver1 inst1 ev1 |}.
Proof.
  apply (queue_bound_once 30000 0 empty_storage
           [Invoke (CallInit 1 wf1 ver1 inst1 ev1)]
           [Settle 0 (Resolved JsNull); Invoke (CallInit 2 wf1 ver1 inst1 ev1)]).
  reflexivity.
Defined.

(** X7. [init] takes over the account, instance and workflow names of its
    arguments whenever the guard is not set, also when it then stops at a
    terminal status; when the guard is set the three fields stay as they
    were. *)
Theorem init_adopts_identity a wf v i ev w :
  let e' := this (world_of (init a wf v i ev w)) in
  (accountId e', instanceId e', workflowName e')
  = if isRunning (this w)
    then (accountId (this w), instanceId (this w), workflowName (this w))
    else (Some a, Some (DatabaseInstance.name i), Some (DatabaseWorkflow.name wf)).
Proof.
  set (md := metadata_of a wf v i ev).
  assert (accountId (this (poll md w)) = accountId (this w)
          ∧ instanceId (this (poll md w)) = instanceId (this w)
          ∧ workflowName (this (poll md w)) = workflowName (this w))
    as (Hacc & Hinst & Hname).
  { unfold poll, bind_queue. by destruct (priorityQueue (this w)). }
  destruct (isRunning (this w)) eqn:Hrun.
  { rewrite init_running by done. fold md. cbn [world_of].
    by rewrite Hacc, Hinst, Hname. }
  destruct (is_terminal (status (this w))) eqn:Hterm.
  { by rewrite init_terminal. }
  destruct (init_suspends a wf v i ev w Hrun Hterm) as (k & -> & _).
  fold md. cbn [world_of].
  destruct (activate_queue md (adopt md (poll md w))) as (_ & Ha & Hi & Hn).
  change (accountId (this (launch md (activate md (adopt md (poll md w))))))
    with (accountId (this (activate md (adopt md (poll md w))))).
  change (instanceId (this (launch md (activate md (adopt md (poll md w))))))
    with (instanceId (this (activate md (adopt md (poll md w))))).
  change (workflowName (this (launch md (activate md (adopt md (poll md w))))))
    with (workflowName (this (activate md (adopt md (poll md w))))).
  by rewrite Ha, Hi, Hn.
Qed.

(** ** The table's other constraints *)

(** X8. Besides the unique key, the table keeps its primary key and its
    [CHECK] in every reachable state: row ids are pairwise distinct and
    every [action] is 0 or 1; and a raw [INSERT] of a row whose action is
    neither, or whose key or id is taken, changes nothing. *)
Theorem table_keeps_check_and_primary_key T clock state inputs :
  Sql.well_formed (priority_queue state) →
  let a := run (boot T clock state) inputs in
  NoDup (Sql.ids (table_of a))
  ∧ (∀ r, r ∈ table_of a → Row.action r = 0 ∨ Row.action r = 1)
  ∧ (∀ r, (Row.action r ≠ 0 ∧ Row.action r ≠ 1)
          ∨ Row.key r ∈ Sql.keys (table_of a)
          ∨ Row.id r ∈ Sql.ids (table_of a) →
          table_of (step a (SqlInsert r)) = table_of a).
Proof.
  intros Hwf a.
  destruct (run_table T clock state inputs Hwf) as (_ & Hids & Hchecks).
  split; [exact Hids |]. split.
  - intros r Hr. rewrite Forall_forall in Hchecks.
    specialize (Hchecks r Hr). unfold Row.check in Hchecks.
    by apply bool_decide_eq_true_1 in Hchecks.
  - intros r Hbad. unfold table_of. cbn.
    unfold Sql.insert, Sql.admissible.
    destruct Hbad as [(Hn0 & Hn1) | [Hkey | Hid]].
    + unfold Row.check. rewrite bool_decide_eq_false_2; [done |]. intros [|]; done.
    + rewrite (bool_decide_eq_false_2 (Row.key r ∉ _)) by (intros Hnot; by apply Hnot).
      by rewrite andb_false_r.
    + rewrite (bool_decide_eq_false_2 (Row.id r ∉ _)) by (intros Hnot; by apply Hnot).
      by rewrite andb_false_r.
Qed.

Lemma bad_action_insert_refused :
  table_of (step (run (boot 30000 0 empty_storage) [Enqueue 1 "sleep-1" 1000])
              (SqlInsert {| Row.id := 9; Row.created_on := 0; Row.target_timestamp := 5;
                            Row.action := 2; Row.entryType := 1; Row.hash := "x" |}))
  = table_of (run (boot 30000 0 empty_storage) [Enqueue 1 "sleep-1" 1000]).
Proof.
  assert (Sql.well_formed (priority_queue empty_storage)) as Hwf.
  { repeat split; constructor. }
  apply (table_keeps_check_and_primary_key 30000 0 empty_storage
           [Enqueue 1 "sleep-1" 1000] Hwf).
  left. split; discriminate.
Defined.

(** ** A first run, start to end *)

(** X9. On an engine built over a store without instance metadata, one
    [init] whose workflow settles with nothing interleaved leaves exactly
    three log entries, which [readLogs] returns in order: [WORKFLOW_QUEUED],
    [WORKFLOW_START], and [WORKFLOW_SUCCESS] or [WORKFLOW_FAILURE] by the
    way the workflow settled; the status is [Complete] or [Errored]
    accordingly and the guard is cleared. *)
Theorem first_run_log T clock state a wf v i ev o :
  kv state !! INSTANCE_METADATA = None →
  let md := metadata_of a wf v i ev in
  ∃ w_run k w_end,
    init a wf v i ev (constructor T clock state) = Await ev w_run k
    ∧ k o w_run = Ret (Normal (returned_id i)) w_end
    ∧ readLogs w_end
      = Ret (Normal {| InstanceLogsResponse.logs :=
                         [queued_entry md; start_entry; outcome_entry o] |}) w_end
    ∧ status (this w_end)
      = match o with Resolved _ => Complete | Rejected _ => Errored end
    ∧ isRunning (this w_end) = false.
Proof.
  intros Hslot md. set (w0 := constructor T clock state).
  destruct (init_suspends a wf v i ev w0 eq_refl eq_refl) as (k & Hinit & Hk).
  fold md in Hinit.
  set (w_run := launch md (activate md (adopt md (poll md w0)))) in *.
  exists w_run, k, (conclude o w_run).
  split; [exact Hinit |]. split; [apply Hk |].
  assert (logs (this w_run) = [queued_entry md; start_entry]) as Hlogs.
  { unfold w_run. rewrite (proj1 (proj2 (proj2 (launch_this md _)))).
    assert (kv (ctx (adopt md (poll md w0))) !! INSTANCE_METADATA = None) as Hslot'.
    { change (kv (ctx (poll md w0)) !! INSTANCE_METADATA = None). by rewrite poll_kv. }
    rewrite (proj1 (activate_first md _ Hslot')).
    change (logs (this (adopt md (poll md w0)))) with (logs (this (poll md w0))).
    by rewrite (proj1 (poll_this md w0)). }
  unfold readLogs, get.
  destruct o as [result | err].
  - destruct (conclude_resolved result w_run) as (Hst & Hguard & Hl & _).
    rewrite Hl, Hlogs, Hst, Hguard. done.
  - destruct (conclude_rejected err w_run) as (Hst & Hguard & Hl & _).
    rewrite Hl, Hlogs, Hst, Hguard. done.
Qed.

Lemma fresh_engine_failed_run_log :
  ∃ w_end,
    resume (init 1 wf1 ver1 inst1 ev1 fresh) (Rejected (JsString "boom")) busy
    = Ret (Normal (returned_id inst1)) w_end
    ∧ LogEntry.event <$> logs (this w_end)
      = [WORKFLOW_QUEUED; WORKFLOW_START; WORKFLOW_FAILURE].
Proof.
  destruct (first_run_log 30000 0 empty_storage 1 wf1 ver1 inst1 ev1
              (Rejected (JsString "boom")))
    as (w_run & k & w_end & Hinit & Hk & Hlogs & _); [reflexivity |].
  exists w_end.
  change fresh with (constructor 30000 0 empty_storage). unfold busy.
  change fresh with (constructor 30000 0 empty_storage).
  rewrite Hinit. cbn [resume world_of]. split; [exact Hk |].
  unfold readLogs, get in Hlogs. injection Hlogs as ->. reflexivity.
Defined.

(** ** The status as the only gate *)

(** X10. On an engine whose guard is not set, the status last stored by
    [setStatus] alone decides what the next [init] does: after a terminal
    status it returns at once without calling the user workflow, after
    [Queued] or [Running] it calls the workflow, whatever the engine had
    done before. *)
Theorem setStatus_gates_init acc' i' st a wf v i ev w :
  isRunning (this w) = false →
  completion_of (init a wf v i ev (world_of (setStatus acc' i' st w)))
  = if is_terminal st then Some (Normal None) else None.
Proof.
  intros Hrun. set (w' := world_of (setStatus acc' i' st w)).
  assert (isRunning (this w') = false) as Hrun' by exact Hrun.
  assert (status (this w') = st) as Hst by reflexivity.
  destruct (is_terminal st) eqn:Hterm.
  - rewrite init_terminal; [done | exact Hrun' | by rewrite Hst].
  - destruct (init_suspends a wf v i ev w' Hrun') as (k & -> & _); [by rewrite Hst |].
    done.
Qed.

Lemma finished_engine_requeued :
  completion_of (init 1 wf1 ver1 inst1 ev1 finished) = Some (Normal None)
  ∧ completion_of
      (init 1 wf1 ver1 inst1 ev1 (world_of (setStatus 1 "run-1" Queued finished)))
    = None.
Proof.
  split; [reflexivity |].
  apply (setStatus_gates_init 1 "run-1" Queued 1 wf1 ver1 inst1 ev1 finished).
  reflexivity.
Defined.

(** * Properties of the registry daemon *)

(** ** Routes *)

Lemma strip_prefix_Some prefix s rest :
  Daemon.strip_prefix prefix s = Some rest ↔ s = prefix +:+ rest.
Proof.
  revert s. induction prefix as [| a prefix IH]; intros s; cbn.
  - split; [by intros [= ->] | by intros ->].
  - destruct s as [| b s]; [done |].
    destruct (decide (a = b)) as [<- | Hne].
    + rewrite IH. split; [by intros -> | by intros [= ->]].
    + split; [done | intros [= ? _]; done].
Qed.

Lemma segment_split s :
  s = (Daemon.segment s).1 +:+ (Daemon.segment s).2
  ∧ Daemon.slash_free (Daemon.segment s).1 = true.
Proof.
  induction s as [| c s [IHs IHf]]; [done |].
  cbn [Daemon.segment].
  destruct (decide (c = "/"%char)) as [-> | Hne]; [done |].
  split.
  - change (String c s = String c ((Daemon.segment s).1 +:+ (Daemon.segment s).2)).
    by rewrite <- IHs.
  - change (negb (bool_decide (c = "/"%char))
            && Daemon.slash_free (Daemon.segment s).1 = true).
    by rewrite IHf, bool_decide_eq_false_2.
Qed.

Lemma segment_of_append id tail :
  Daemon.slash_free id = true →
  tail = "" ∨ tail = "/" →
  Daemon.segment (id +:+ tail) = (id, tail).
Proof.
  intros Hfree Htail. induction id as [| c id IH].
  - by destruct Htail as [-> | ->].
  - change (negb (bool_decide (c = "/"%char)) && Daemon.slash_free id = true) in Hfree.
    apply andb_prop in Hfree as [Hc Hfree].
    apply negb_true_iff, bool_decide_eq_false_1 in Hc.
    change (Daemon.segment (String c (id +:+ tail)) = (String c id, tail)).
    cbn [Daemon.segment].
    destruct (decide (c = "/"%char)); [done |].
    by rewrite (IH Hfree).
Qed.

Lemma append_empty_r (s : string) : s +:+ "" = s.
Proof.
  induction s as [| c s IH]; [done |].
  change (String c (s +:+ "") = String c s). by rewrite IH.
Qed.

Lemma slash_end_iff s : Daemon.slash_end s = true ↔ s = "" ∨ s = "/".
Proof. unfold Daemon.slash_end. apply bool_decide_eq_true. Qed.

Lemma exec_worker_iff path id :
  Daemon.exec_worker path = Some id
  ↔ id ≠ "" ∧ Daemon.slash_free id = true
    ∧ (path = "/workers/" +:+ id ∨ path = "/workers/" +:+ id +:+ "/").
Proof.
  unfold Daemon.exec_worker. split.
  - destruct (Daemon.strip_prefix "/workers/" path) as [rest |] eqn:Hrest; [| done].
    apply strip_prefix_Some in Hrest.
    destruct (segment_split rest) as (Hsplit & Hfree).
    destruct (Daemon.segment rest) as [seg tail]. cbn [fst snd] in *.
    destruct (bool_decide (seg = "")) eqn:Hempty; [done |].
    destruct (Daemon.slash_end tail) eqn:Hend; [| done].
    cbn. intros [= <-].
    apply bool_decide_eq_false_1 in Hempty. apply slash_end_iff in Hend.
    split; [exact Hempty |]. split; [exact Hfree |].
    subst path rest.
    destruct Hend as [-> | ->]; [left | right]; by rewrite ?append_empty_r.
  - intros (Hne & Hfree & Hpath).
    assert (∃ tail, (tail = "" ∨ tail = "/") ∧ path = "/workers/" +:+ id +:+ tail)
      as (tail & Htail & ->).
    { destruct Hpath as [-> | ->]; [exists "" | exists "/"];
        rewrite ?append_empty_r; auto. }
    rewrite (proj2 (strip_prefix_Some "/workers/" _ (id +:+ tail)) eq_refl).
    rewrite (segment_of_append id tail Hfree Htail). cbn [fst snd].
    rewrite (bool_decide_eq_false_2 _ Hne).
    by rewrite (proj2 (slash_end_iff tail) Htail).
Qed.

Lemma append_inj_l (prefix a b : string) : prefix +:+ a = prefix +:+ b → a = b.
Proof.
  induction prefix as [| c prefix IH]; [done |].
  change (String c (prefix +:+ a) = String c (prefix +:+ b) → a = b).
  intros [= Heq]. by apply IH.
Qed.

Lemma exec_worker_optional_iff path :
  (∀ id, Daemon.exec_worker_optional path = Some (Some id)
         ↔ Daemon.exec_worker path = Some id)
  ∧ (Daemon.exec_worker_optional path = Some None
     ↔ path = "/workers/" ∨ path = "/workers//").
Proof.
  unfold Daemon.exec_worker_optional, Daemon.exec_worker.
  destruct (Daemon.strip_prefix "/workers/" path) as [rest |] eqn:Hrest.
  - apply strip_prefix_Some in Hrest.
    destruct (segment_split rest) as (Hsplit & _).
    assert (∀ tail, tail = "" ∨ tail = "/" → Daemon.segment tail = ("", tail))
      as Hbare by (by intros tail [-> | ->]).
    destruct (Daemon.segment rest) as [seg tail] eqn:Hseg. cbn [fst snd] in *.
    destruct (Daemon.slash_end tail) eqn:Hend;
      destruct (bool_decide (seg = "")) eqn:Hempty; cbn.
    + split; [intros id; naive_solver |]. split; [intros _ | done].
      apply bool_decide_eq_true_1 in Hempty. apply slash_end_iff in Hend.
      subst. destruct Hend as [-> | ->]; auto.
    + split; [intros id; naive_solver |]. split; [done |].
      apply bool_decide_eq_false_1 in Hempty.
      intros Hpath.
      assert (rest = "" ∨ rest = "/") as Hbarerest.
      { destruct Hpath as [-> | ->];
          [left; by apply (append_inj_l "/workers/")
          | right; by apply (append_inj_l "/workers/")]. }
      rewrite (Hbare rest Hbarerest) in Hseg. injection Hseg as <- _. done.
    + split; [intros id; naive_solver |]. split; [done |].
      intros Hpath.
      assert (rest = "" ∨ rest = "/") as Hbarerest.
      { destruct Hpath as [-> | ->];
          [left; by apply (append_inj_l "/workers/")
          | right; by apply (append_inj_l "/workers/")]. }
      rewrite (Hbare rest Hbarerest) in Hseg. injection Hseg as _ <-.
      apply slash_end_iff in Hbarerest. congruence.
    + split; [intros id; naive_solver |]. split; [done |].
      intros Hpath.
      assert (rest = "" ∨ rest = "/") as Hbarerest.
      { destruct Hpath as [-> | ->];
          [left; by apply (append_inj_l "/workers/")
          | right; by apply (append_inj_l "/workers/")]. }
      rewrite (Hbare rest Hbarerest) in Hseg. injection Hseg as _ <-.
      apply slash_end_iff in Hbarerest. congruence.
  - split; [intros id; naive_solver |]. split; [done |].
    intros [-> | ->]; done.
Qed.

(** X11. The three routes accept exactly these paths: [GET] takes
    [/workers] and [/workers/]; [POST] takes [/workers/<id>] with or
    without a closing slash, where [<id>] is a non-empty run of characters
    other than [/]; [DELETE] takes what [POST] takes, with the same id,
    and also [/workers/] and [/workers//] with no id, but not [/workers]. *)
Theorem route_shapes path :
  (Daemon.test_workers path = true ↔ path = "/workers" ∨ path = "/workers/")
  ∧ (∀ id, Daemon.exec_worker path = Some id
           ↔ id ≠ "" ∧ Daemon.slash_free id = true
             ∧ (path = "/workers/" +:+ id ∨ path = "/workers/" +:+ id +:+ "/"))
  ∧ (∀ id, Daemon.exec_worker_optional path = Some (Some id)
           ↔ Daemon.exec_worker path = Some id)
  ∧ (Daemon.exec_worker_optional path = Some None
     ↔ path = "/workers/" ∨ path = "/workers//")
  ∧ Daemon.exec_worker_optional "/workers" = None.
Proof.
  split.
  { unfold Daemon.test_workers.
    destruct (Daemon.strip_prefix "/workers" path) as [rest |] eqn:Hrest.
    - apply strip_prefix_Some in Hrest. subst path. rewrite slash_end_iff.
      split.
      + intros [-> | ->]; [by left | by right].
      + intros [Heq | Heq]; [left | right]; by apply (append_inj_l "/workers").
    - split; [done |].
      intros [-> | ->]; done. }
  split; [intros id; apply exec_worker_iff |].
  split; [apply exec_worker_optional_iff |].
  split; [apply exec_worker_optional_iff | reflexivity].
Qed.

(** ** One event at a time *)

Lemma resetExitTimeout_frame p :
  Daemon.workers (Daemon.resetExitTimeout p) = Daemon.workers p
  ∧ Daemon.exited (Daemon.resetExitTimeout p) = Daemon.exited p
  ∧ Daemon.now (Daemon.resetExitTimeout p) = Daemon.now p
  ∧ Daemon.sent (Daemon.resetExitTimeout p) = Daemon.sent p
  ∧ Daemon.ipc (Daemon.resetExitTimeout p) = Daemon.ipc p
  ∧ Daemon.exitCode (Daemon.resetExitTimeout p) = Daemon.exitCode p.
Proof. done. Qed.


Lemma serve_post s path id :
  Daemon.exited (Daemon.process s) = None →
  Daemon.exec_worker path = Some id →
  Daemon.serve s (Daemon.Arrives {| Daemon.method := Some "POST";
                                    Daemon.pathname := Some path |})
  = {| Daemon.process := Daemon.resetExitTimeout (Daemon.process s);
       Daemon.reading :=
         Daemon.reading s ++ [(Daemon.epoch (Daemon.process s), id)];
       Daemon.responses := Daemon.responses s |}.
Proof.
  intros Halive Hroute. unfold Daemon.serve, Daemon.requestListener.
  rewrite Halive. cbn [Daemon.pathname Daemon.method]. by rewrite Hroute.
Qed.

Lemma serve_delete s path target :
  Daemon.exited (Daemon.process s) = None →
  Daemon.exec_worker_optional path = Some target →
  Daemon.serve s (Daemon.Arrives {| Daemon.method := Some "DELETE";
                                    Daemon.pathname := Some path |})
  = {| Daemon.process :=
         match target with
         | Some id =>
             Daemon.with_workers
               (Daemon.delete_property id (Daemon.workers (Daemon.process s)))
               (Daemon.resetExitTimeout (Daemon.process s))
         | None =>
             Daemon.rebind_workers Daemon.empty_object
               (Daemon.resetExitTimeout (Daemon.process s))
         end;
       Daemon.reading := Daemon.reading s;
       Daemon.responses :=
         Daemon.responses s ++ [Daemon.jsonResponse Daemon.NullValue] |}.
Proof.
  intros Halive Hroute. unfold Daemon.serve, Daemon.requestListener.
  rewrite Halive. cbn [Daemon.pathname Daemon.method]. rewrite Hroute.
  by destruct target.
Qed.

Lemma serve_body s n held id parsed :
  Daemon.exited (Daemon.process s) = None →
  Daemon.reading s !! n = Some (held, id) →
  Daemon.serve s (Daemon.BodyRead n parsed)
  = match parsed with
    | Some definition =>
        {| Daemon.process :=
             if decide (held = Daemon.epoch (Daemon.process s))
             then Daemon.with_workers
                    (Daemon.set_property id definition
                       (Daemon.workers (Daemon.process s)))
                    (Daemon.process s)
             else Daemon.process s;
           Daemon.reading := delete n (Daemon.reading s);
           Daemon.responses :=
             Daemon.responses s ++ [Daemon.jsonResponse Daemon.NullValue] |}
    | None =>
        {| Daemon.process := Daemon.process s;
           Daemon.reading := delete n (Daemon.reading s);
           Daemon.responses := Daemon.responses s |}
    end.
Proof.
  intros Halive Hn. unfold Daemon.serve. rewrite Halive, Hn. by destruct parsed.
Qed.

Lemma reading_last (readers : list (nat * string)) id :
  (readers ++ [id]) !! length readers = Some id
  ∧ delete (length readers) (readers ++ [id]) = readers.
Proof.
  split.
  - by rewrite lookup_app_r, Nat.sub_diag.
  - induction readers as [| r readers IH]; [done |].
    change (r :: delete (length readers) (readers ++ [id]) = r :: readers).
    by rewrite IH.
Qed.


(** ** Registering and listing *)


(** X13. A [POST /workers/<id>] whose body is not JSON is never answered
    and registers nothing: once the body has been read the registry and
    the responses sent are what they were before the request. *)
Theorem post_with_bad_body_is_dropped s path id :
  Daemon.exited (Daemon.process s) = None →
  Daemon.exec_worker path = Some id →
  let s' :=
    Daemon.serve_all s
      [Daemon.Arrives {| Daemon.method := Some "POST"; Daemon.pathname := Some path |};
       Daemon.BodyRead (length (Daemon.reading s)) None] in
  Daemon.responses s' = Daemon.responses s
  ∧ Daemon.workers (Daemon.process s') = Daemon.workers (Daemon.process s)
  ∧ Daemon.reading s' = Daemon.reading s.
Proof.
  intros Halive Hroute. cbn zeta. unfold Daemon.serve_all. cbn [foldl].
  rewrite (serve_post s path id Halive Hroute).
  set (held := Daemon.epoch (Daemon.process s)).
  destruct (reading_last (Daemon.reading s) (held, id)) as (Hlast & Hdel).
  rewrite (serve_body _ _ held id None); [| exact Halive | exact Hlast].
  cbn [Daemon.process Daemon.reading Daemon.responses]. by rewrite Hdel.
Qed.

(** ** Unregistering *)

Lemma delete_property_absent id o :
  Daemon.own o !! id = None → Daemon.delete_property id o = o.
Proof.
  intros Hnone. destruct o as [entries prototype]. unfold Daemon.delete_property.
  cbn in *. by rewrite delete_id.
Qed.

Lemma delete_set_property id definition o :
  id ≠ "__proto__" →
  Daemon.delete_property id (Daemon.set_property id definition o)
  = Daemon.delete_property id o.
Proof.
  intros Hid. unfold Daemon.set_property. rewrite decide_False by done.
  unfold Daemon.delete_property. cbn [Daemon.own Daemon.proto].
  by rewrite delete_insert_eq.
Qed.

(** X14. [DELETE /workers/<id>] deletes the registry's own entry [<id>]
    and changes nothing else of the registry object, prototype included,
    and is answered with 200 and [null] whether or not the worker existed.
    After a [POST] of the same id it leaves the object the [POST] made,
    less its own entry [<id>]. For every id other than [__proto__] that is
    the registry as it was before the [POST], less [<id>]: the very object
    of before when [<id>] was not registered. The id [__proto__] is
    excluded there, as a [POST] under it can replace the prototype, which
    the [DELETE] does not restore. *)
Theorem delete_unregisters s path id definition :
  Daemon.exited (Daemon.process s) = None →
  Daemon.exec_worker path = Some id →
  let deleted :=
    Daemon.serve s (Daemon.Arrives {| Daemon.method := Some "DELETE";
                                      Daemon.pathname := Some path |}) in
  let posted_deleted :=
    Daemon.serve_all s
      [Daemon.Arrives {| Daemon.method := Some "POST"; Daemon.pathname := Some path |};
       Daemon.BodyRead (length (Daemon.reading s)) (Some definition);
       Daemon.Arrives {| Daemon.method := Some "DELETE";
                         Daemon.pathname := Some path |}] in
  Daemon.workers (Daemon.process deleted)
  = Daemon.delete_property id (Daemon.workers (Daemon.process s))
  ∧ Daemon.responses deleted
    = Daemon.responses s ++ [Daemon.jsonResponse Daemon.NullValue]
  ∧ Daemon.workers (Daemon.process posted_deleted)
    = Daemon.delete_property id
        (Daemon.set_property id definition (Daemon.workers (Daemon.process s)))
  ∧ Daemon.responses posted_deleted
    = Daemon.responses s
      ++ [Daemon.jsonResponse Daemon.NullValue; Daemon.jsonResponse Daemon.NullValue]
  ∧ (id ≠ "__proto__" →
     Daemon.workers (Daemon.process posted_deleted)
     = Daemon.delete_property id (Daemon.workers (Daemon.process s))
     ∧ (Daemon.own (Daemon.workers (Daemon.process s)) !! id = None →
        Daemon.workers (Daemon.process posted_deleted)
        = Daemon.workers (Daemon.process s))).
Proof.
  intros Halive Hroute. cbn zeta.
  assert (Daemon.exec_worker_optional path = Some (Some id)) as Hroute'
    by (by apply exec_worker_optional_iff).
  rewrite (serve_delete s path (Some id) Halive Hroute').
  split; [done |]. split; [done |].
  unfold Daemon.serve_all. cbn [foldl].
  rewrite (serve_post s path id Halive Hroute).
  set (held := Daemon.epoch (Daemon.process s)).
  destruct (reading_last (Daemon.reading s) (held, id)) as (Hlast & Hdel).
  rewrite (serve_body _ _ held id (Some definition)); [| exact Halive | exact Hlast].
  cbn [Daemon.process].
  change (Daemon.epoch (Daemon.resetExitTimeout (Daemon.process s))) with held.
  rewrite ?decide_True by done.
  rewrite (serve_delete _ path (Some id)); [| exact Halive | exact Hroute'].
  cbn [Daemon.process Daemon.responses].
  change (Daemon.workers
            (Daemon.with_workers
               (Daemon.delete_property id
                  (Daemon.workers
                     (Daemon.with_workers
                        (Daemon.set_property id definition
                           (Daemon.workers (Daemon.resetExitTimeout (Daemon.process s))))
                        (Daemon.resetExitTimeout (Daemon.process s)))))
               (Daemon.resetExitTimeout
                  (Daemon.with_workers
                     (Daemon.set_property id definition
                        (Daemon.workers (Daemon.resetExitTimeout (Daemon.process s))))
                     (Daemon.resetExitTimeout (Daemon.process s))))))
    with (Daemon.delete_property id
            (Daemon.set_property id definition (Daemon.workers (Daemon.process s)))).
  split; [done |]. split; [by rewrite <- app_assoc |].
  intros Hid. rewrite delete_set_property by done. split; [done |].
  apply delete_property_absent.
Qed.

(** X15. The whole registry is cleared by [DELETE /workers/] (and
    [DELETE /workers//]), which is answered with 200 and [null]; but
    [DELETE /workers], without the closing slash, is answered with 404 and
    leaves every worker registered, although [GET /workers] lists them. *)
Theorem delete_all_needs_slash s :
  Daemon.exited (Daemon.process s) = None →
  let cleared path :=
    Daemon.serve s (Daemon.Arrives {| Daemon.method := Some "DELETE";
                                      Daemon.pathname := Some path |}) in
  (∀ path, path = "/workers/" ∨ path = "/workers//" →
     Daemon.workers (Daemon.process (cleared path)) = Daemon.empty_object
     ∧ Daemon.responses (cleared path)
       = Daemon.responses s ++ [Daemon.jsonResponse Daemon.NullValue])
  ∧ Daemon.workers (Daemon.process (cleared "/workers"))
    = Daemon.workers (Daemon.process s)
  ∧ Daemon.responses (cleared "/workers")
    = Daemon.responses s ++ [Daemon.notFoundResponse].
Proof.
  intros Halive. cbn zeta. split.
  - intros path Hpath.
    assert (Daemon.exec_worker_optional path = Some None) as Hroute
      by (by apply exec_worker_optional_iff).
    by rewrite (serve_delete s path None Halive Hroute).
  - unfold Daemon.serve, Daemon.requestListener. rewrite Halive. done.
Qed.

(** ** Everything else *)

Lemma outside_workers path :
  Daemon.strip_prefix "/workers" path = None →
  Daemon.test_workers path = false
  ∧ Daemon.exec_worker path = None
  ∧ Daemon.exec_worker_optional path = None.
Proof.
  intros Hout.
  assert (Daemon.strip_prefix "/workers/" path = None) as Hout'.
  { destruct (Daemon.strip_prefix "/workers/" path) as [rest |] eqn:Hrest; [| done].
    apply strip_prefix_Some in Hrest.
    assert (Daemon.strip_prefix "/workers" path = Some ("/" +:+ rest)) as Hin
      by (by apply strip_prefix_Some; rewrite Hrest).
    congruence. }
  unfold Daemon.test_workers, Daemon.exec_worker, Daemon.exec_worker_optional.
  by rewrite Hout, Hout'.
Qed.

(** X16. A request whose path does not begin with [/workers], or whose
    method is none of [GET], [POST] and [DELETE], is answered with 404 and
    an empty body, reads no request body, and leaves the registry as it
    was. *)
Theorem unknown_route_is_not_found s req path :
  Daemon.exited (Daemon.process s) = None →
  Daemon.pathname req = Some path →
  Daemon.strip_prefix "/workers" path = None
  ∨ (Daemon.method req ≠ Some "GET" ∧ Daemon.method req ≠ Some "POST"
     ∧ Daemon.method req ≠ Some "DELETE") →
  let s' := Daemon.serve s (Daemon.Arrives req) in
  Daemon.responses s'
  = Daemon.responses s
    ++ [{| Daemon.statusCode := 404; Daemon.headers := []; Daemon.body := Daemon.NoBody |}]
  ∧ Daemon.workers (Daemon.process s') = Daemon.workers (Daemon.process s)
  ∧ Daemon.reading s' = Daemon.reading s.
Proof.
  intros Halive Hpath Hunknown. cbn zeta.
  unfold Daemon.serve, Daemon.requestListener. rewrite Halive, Hpath.
  destruct Hunknown as [Hout | (Hget & Hpost & Hdelete)].
  - destruct (outside_workers path Hout) as (-> & -> & ->).
    rewrite andb_false_r.
    by destruct (bool_decide (Daemon.method req = Some "POST")),
                (bool_decide (Daemon.method req = Some "DELETE")).
  - by rewrite !bool_decide_eq_false_2.
Qed.

(** ** The registry is an ordinary object *)

(** X17. While the registry has its original prototype and no entry of
    its own called [__proto__], as it does after start-up and after
    [DELETE /workers/], a [POST /workers/__proto__] is answered with 200
    and [null] but registers nothing: the registry's entries are the same
    before and after, whatever the body. *)
Theorem proto_is_never_registered s definition :
  Daemon.exited (Daemon.process s) = None →
  Daemon.proto (Daemon.workers (Daemon.process s)) = Daemon.ObjectPrototype →
  Daemon.own (Daemon.workers (Daemon.process s)) !! "__proto__" = None →
  let s' :=
    Daemon.serve_all s
      [Daemon.Arrives {| Daemon.method := Some "POST";
                         Daemon.pathname := Some "/workers/__proto__" |};
       Daemon.BodyRead (length (Daemon.reading s)) (Some definition)] in
  Daemon.own (Daemon.workers (Daemon.process s'))
  = Daemon.own (Daemon.workers (Daemon.process s))
  ∧ Daemon.responses s'
    = Daemon.responses s ++ [Daemon.jsonResponse Daemon.NullValue].
Proof.
  intros Halive Hproto Hown. cbn zeta. unfold Daemon.serve_all. cbn [foldl].
  rewrite (serve_post s "/workers/__proto__" "__proto__" Halive eq_refl).
  set (held := Daemon.epoch (Daemon.process s)).
  destruct (reading_last (Daemon.reading s) (held, "__proto__")) as (Hlast & Hdel).
  rewrite (serve_body _ _ held "__proto__" (Some definition));
    [| exact Halive | exact Hlast].
  cbn [Daemon.process].
  change (Daemon.epoch (Daemon.resetExitTimeout (Daemon.process s))) with held.
  rewrite decide_True by done.
  split; [| done].
  cbn [Daemon.process Daemon.workers Daemon.with_workers].
  change (Daemon.workers (Daemon.resetExitTimeout (Daemon.process s)))
    with (Daemon.workers (Daemon.process s)).
  unfold Daemon.set_property. rewrite decide_True by done.
  rewrite Hown, Hproto. cbn [Daemon.reaches_accessor]. by destruct definition.
Qed.

(** ** A body that arrives late *)

(** X18. A [POST] stores its worker in the object that was the registry
    when the request arrived: if [DELETE /workers/] is served while the
    body of [POST /workers/<id>] is still arriving, the [POST] is answered
    with 200 and [null] all the same, but the worker is not in the
    registry, which stays empty. *)
Theorem late_body_misses_new_registry s path id definition :
  Daemon.exited (Daemon.process s) = None →
  Daemon.exec_worker path = Some id →
  let s' :=
    Daemon.serve_all s
      [Daemon.Arrives {| Daemon.method := Some "POST"; Daemon.pathname := Some path |};
       Daemon.Arrives {| Daemon.method := Some "DELETE";
                         Daemon.pathname := Some "/workers/" |};
       Daemon.BodyRead (length (Daemon.reading s)) (Some definition)] in
  Daemon.workers (Daemon.process s') = Daemon.empty_object
  ∧ Daemon.responses s'
    = Daemon.responses s
      ++ [Daemon.jsonResponse Daemon.NullValue; Daemon.jsonResponse Daemon.NullValue].
Proof.
  intros Halive Hroute. cbn zeta. unfold Daemon.serve_all. cbn [foldl].
  rewrite (serve_post s path id Halive Hroute).
  rewrite (serve_delete _ "/workers/" None); [| exact Halive | reflexivity].
  set (held := Daemon.epoch (Daemon.process s)).
  destruct (reading_last (Daemon.reading s) (held, id)) as (Hlast & Hdel).
  rewrite (serve_body _ _ held id (Some definition)); [| exact Halive | exact Hlast].
  cbn [Daemon.process Daemon.responses].
  change (Daemon.epoch (Daemon.rebind_workers Daemon.empty_object
                          (Daemon.resetExitTimeout
                             (Daemon.resetExitTimeout (Daemon.process s)))))
    with (S held).
  rewrite decide_False by lia.
  split; [done |]. by rewrite <- app_assoc.
Qed.

(** ** The exit timer *)

Lemma resetExitTimeout_timers p :
  (Daemon.timers p = [] ∧ Daemon.exitTimeout p = None)
  ∨ (∃ handle deadline, Daemon.timers p = [(handle, deadline)]
                        ∧ Daemon.exitTimeout p = Some handle) →
  Daemon.timers (Daemon.resetExitTimeout p)
  = [(Daemon.next_timer p, Daemon.now p + 10000)]
  ∧ Daemon.exitTimeout (Daemon.resetExitTimeout p) = Some (Daemon.next_timer p).
Proof.
  intros [(Htimers & Hexit) | (handle & deadline & Htimers & Hexit)];
    unfold Daemon.resetExitTimeout, Daemon.clearTimeout, Daemon.setTimeout;
    cbn [Daemon.timers Daemon.exitTimeout Daemon.next_timer Daemon.now];
    rewrite Htimers, Hexit; [done |].
  rewrite filter_cons, decide_False by (intros Hne; by apply Hne). done.
Qed.

Lemma requestListener_process req p :
  ∃ p', Daemon.process (Daemon.settle [] [] (Daemon.requestListener req p)) = p'
        ∧ Daemon.timers p' = Daemon.timers (Daemon.resetExitTimeout p)
        ∧ Daemon.exitTimeout p' = Daemon.exitTimeout (Daemon.resetExitTimeout p)
        ∧ Daemon.now p' = Daemon.now p
        ∧ Daemon.exited p' = Daemon.exited p.
Proof.
  eexists. split; [reflexivity |]. unfold Daemon.requestListener.
  destruct (Daemon.pathname req) as [path |]; [| done].
  destruct (bool_decide (Daemon.method req = Some "GET") && Daemon.test_workers path);
    [done |].
  destruct (if bool_decide (Daemon.method req = Some "POST")
            then Daemon.exec_worker path else None); [done |].
  by destruct (if bool_decide (Daemon.method req = Some "DELETE")
               then Daemon.exec_worker_optional path else None) as [[id |] |].
Qed.

Lemma finish_post_process held id parsed p :
  Daemon.timers (Daemon.process (Daemon.settle [] [] (Daemon.finish_post held id parsed p)))
  = Daemon.timers p
  ∧ Daemon.exitTimeout
      (Daemon.process (Daemon.settle [] [] (Daemon.finish_post held id parsed p)))
    = Daemon.exitTimeout p
  ∧ Daemon.now (Daemon.process (Daemon.settle [] [] (Daemon.finish_post held id parsed p)))
    = Daemon.now p
  ∧ Daemon.exited
      (Daemon.process (Daemon.settle [] [] (Daemon.finish_post held id parsed p)))
    = Daemon.exited p.
Proof.
  destruct parsed as [definition |]; [| done].
  cbn. by destruct (decide (held = Daemon.epoch p)).
Qed.

Lemma settle_process readers out h :
  Daemon.process (Daemon.settle readers out h) = Daemon.process (Daemon.settle [] [] h).
Proof. by destruct h. Qed.

Lemma serve_keeps_timer s e :
  (Daemon.exited (Daemon.process s) = None → Daemon.one_exit_timer (Daemon.process s)) →
  Daemon.exited (Daemon.process (Daemon.serve s e)) = None →
  Daemon.one_exit_timer (Daemon.process (Daemon.serve s e)).
Proof.
  intros Hinv. unfold Daemon.serve.
  destruct (Daemon.exited (Daemon.process s)) eqn:Halive; [intros Hdead; congruence |].
  specialize (Hinv eq_refl). destruct Hinv as (handle & deadline & Ht & He & Hlt & Hle).
  destruct e as [req | n parsed | dt].
  - intros _. rewrite settle_process.
    destruct (requestListener_process req (Daemon.process s))
      as (p' & -> & Htimers & Hexit & Hnow & _).
    destruct (resetExitTimeout_timers (Daemon.process s)) as (Ht' & He');
      [right; eauto |].
    exists (Daemon.next_timer (Daemon.process s)), (Daemon.now (Daemon.process s) + 10000).
    rewrite Htimers, Hexit, Hnow. split; [exact Ht' |]. split; [exact He' |]. lia.
  - destruct (Daemon.reading s !! n) as [[held id] |];
      [| intros _; by exists handle, deadline].
    intros _. rewrite settle_process. exists handle, deadline.
    destruct (finish_post_process held id parsed (Daemon.process s))
      as (-> & -> & -> & _).
    done.
  - cbn [Daemon.process]. unfold Daemon.elapse. rewrite Ht.
    cbn [existsb Daemon.now snd orb]. rewrite orb_false_r.
    case_bool_decide as Hdue; [by rewrite Halive || done |].
    intros _. exists handle, deadline. cbn [Daemon.timers Daemon.exitTimeout Daemon.now].
    split; [done |]. split; [exact He |]. lia.
Qed.

Lemma listening_started clock :
  Daemon.start Daemon.Listening (Daemon.loaded clock true)
  = Daemon.Fulfilled (Daemon.process (Daemon.listening clock)).
Proof. reflexivity. Qed.

Lemma listening_timer clock :
  Daemon.exited (Daemon.process (Daemon.listening clock)) = None
  ∧ Daemon.one_exit_timer (Daemon.process (Daemon.listening clock)).
Proof.
  split; [done |].
  exists 0%nat, (clock + 10000).
  split; [reflexivity |]. split; [reflexivity |]. cbn. lia.
Qed.

Lemma serve_exit_code s e :
  (∀ code, Daemon.exited (Daemon.process s) = Some code → code = 0) →
  ∀ code, Daemon.exited (Daemon.process (Daemon.serve s e)) = Some code → code = 0.
Proof.
  intros Hinv code. unfold Daemon.serve.
  destruct (Daemon.exited (Daemon.process s)) eqn:Halive.
  { rewrite Halive. apply Hinv. }
  destruct e as [req | n parsed | dt].
  - rewrite settle_process.
    destruct (requestListener_process req (Daemon.process s))
      as (p' & -> & _ & _ & _ & ->). by rewrite Halive.
  - destruct (Daemon.reading s !! n) as [[held id] |]; [| by rewrite Halive].
    rewrite settle_process.
    destruct (finish_post_process held id parsed (Daemon.process s)) as (_ & _ & _ & ->).
    by rewrite Halive.
  - cbn [Daemon.process]. unfold Daemon.elapse.
    destruct (existsb _ _); cbn; [by intros [= <-] | by rewrite Halive].
Qed.

(** X19. Once [start] has been fulfilled with the port listening, which
    takes an IPC channel, and as long as no call of the listener ends in a
    rejected promise, a live daemon has exactly one exit timer pending,
    the one [exitTimeout] holds, due within the next ten seconds:
    re-arming always clears the timer armed before. When the daemon has
    exited, it has done so with code 0. *)
Theorem one_exit_timer_pending clock events :
  Forall (λ e, Daemon.rejects e = false) events →
  let s := Daemon.serve_all (Daemon.listening clock) events in
  (Daemon.exited (Daemon.process s) = None → Daemon.one_exit_timer (Daemon.process s))
  ∧ (∀ code, Daemon.exited (Daemon.process s) = Some code → code = 0).
Proof.
  intros _. cbn zeta. induction events as [| e events [IHtimer IHcode]] using rev_ind.
  - destruct (listening_timer clock) as (Halive & Htimer).
    split; [done |]. intros code Hcode.
    change (Daemon.exited (Daemon.process (Daemon.listening clock)) = Some code)
      in Hcode.
    congruence.
  - unfold Daemon.serve_all in *. rewrite foldl_snoc.
    split; [by apply serve_keeps_timer | by apply serve_exit_code].
Qed.

Lemma dead_stays_dead s events code :
  Daemon.exited (Daemon.process s) = Some code → Daemon.serve_all s events = s.
Proof.
  intros Hdead. induction events as [| e events IH] using rev_ind; [done |].
  unfold Daemon.serve_all in *. rewrite foldl_snoc, IH.
  unfold Daemon.serve. by rewrite Hdead.
Qed.

Lemma alive_before s events :
  Daemon.exited (Daemon.process (Daemon.serve_all s events)) = None →
  Daemon.exited (Daemon.process s) = None.
Proof.
  intros Halive. destruct (Daemon.exited (Daemon.process s)) as [code |] eqn:Hs; [| done].
  rewrite (dead_stays_dead s events code Hs) in Halive. congruence.
Qed.

Lemma listening_keeps_timer clock events :
  Daemon.exited (Daemon.process (Daemon.serve_all (Daemon.listening clock) events))
  = None →
  Daemon.one_exit_timer
    (Daemon.process (Daemon.serve_all (Daemon.listening clock) events)).
Proof.
  induction events as [| e events IH] using rev_ind.
  - intros _. apply listening_timer.
  - unfold Daemon.serve_all in *. rewrite foldl_snoc. by apply serve_keeps_timer.
Qed.

Lemma waited_snoc events e :
  Daemon.waited (events ++ [e]) = Daemon.waited events + Daemon.wait e.
Proof.
  unfold Daemon.waited. induction events as [| e' events IH]; cbn [foldr app]; lia.
Qed.

Lemma wait_nonnegative e : 0 ≤ Daemon.wait e.
Proof. destruct e; cbn; lia. Qed.

(** From a live process whose only timer falls due at [deadline], a run
    without arrivals ends alive with the same timer while the clock stays
    short of [deadline], and has exited with code 0 otherwise. *)
Lemma run_without_arrivals s handle deadline later :
  Forall (λ e, Daemon.is_arrival e = false) later →
  Daemon.exited (Daemon.process s) = None →
  Daemon.timers (Daemon.process s) = [(handle, deadline)] →
  Daemon.now (Daemon.process s) < deadline →
  (Daemon.now (Daemon.process s) + Daemon.waited later < deadline
   ∧ Daemon.exited (Daemon.process (Daemon.serve_all s later)) = None
   ∧ Daemon.timers (Daemon.process (Daemon.serve_all s later)) = [(handle, deadline)]
   ∧ Daemon.now (Daemon.process (Daemon.serve_all s later))
     = Daemon.now (Daemon.process s) + Daemon.waited later)
  ∨ (deadline ≤ Daemon.now (Daemon.process s) + Daemon.waited later
     ∧ Daemon.exited (Daemon.process (Daemon.serve_all s later)) = Some 0).
Proof.
  intros Hquiet Halive Htimers Hfuture.
  induction later as [| e later IH] using rev_ind.
  - left. cbn. split; [lia |]. split; [done |]. split; [done |]. lia.
  - apply Forall_app in Hquiet as [Hquiet He]. rewrite Forall_singleton in He.
    rewrite waited_snoc. pose proof (wait_nonnegative e) as Hwait.
    unfold Daemon.serve_all in *. rewrite foldl_snoc.
    set (s' := foldl Daemon.serve s later) in *.
    destruct (IH Hquiet) as [(Hlt & Halive' & Htimers' & Hnow') | (Hge & Hdead)].
    + destruct e as [req | n parsed | dt]; [done | |].
      * left. cbn [Daemon.wait]. unfold Daemon.serve. rewrite Halive'.
        destruct (Daemon.reading s' !! n) as [[held id] |].
        -- rewrite settle_process.
           destruct (finish_post_process held id parsed (Daemon.process s'))
             as (-> & _ & -> & ->).
           split; [lia |]. split; [done |]. split; [done |]. lia.
        -- split; [lia |]. split; [done |]. split; [done |]. lia.
      * cbn [Daemon.wait]. unfold Daemon.serve. rewrite Halive'.
        cbn [Daemon.process]. unfold Daemon.elapse. rewrite Htimers'.
        cbn [existsb Daemon.now snd]. rewrite orb_false_r, Hnow'.
        case_bool_decide as Hdue.
        -- right. split; [lia | done].
        -- left. cbn [Daemon.exited Daemon.timers Daemon.now].
           split; [lia |]. split; [done |]. split; [done |]. lia.
    + right. split; [lia |]. unfold Daemon.serve. by rewrite Hdead.
Qed.

(** X20. In a run where no call of the listener ends in a rejected
    promise, the daemon lives for ten seconds after the last request
    arrived, and no longer. Take any request the daemon is alive to
    receive, and any course of events after it in which no further request
    arrives: time passing in any number of steps, request bodies finishing
    to arrive in between. At the end the process has exited with code 0
    when the time passed since the request adds up to 10000 ms or more,
    and is alive when it adds up to less. Reading a body, however late,
    does not re-arm the timer. *)
Theorem exits_ten_seconds_after_last_request clock events req later :
  Forall (λ e, Daemon.rejects e = false) (events ++ [Daemon.Arrives req] ++ later) →
  Forall (λ e, Daemon.is_arrival e = false) later →
  Daemon.exited
    (Daemon.process
       (Daemon.serve_all (Daemon.listening clock) (events ++ [Daemon.Arrives req])))
  = None →
  Daemon.exited
    (Daemon.process
       (Daemon.serve_all (Daemon.listening clock)
          (events ++ [Daemon.Arrives req] ++ later)))
  = if bool_decide (10000 ≤ Daemon.waited later) then Some 0 else None.
Proof.
  intros _ Hquiet. unfold Daemon.serve_all.
  rewrite app_assoc, (foldl_app _ (events ++ [Daemon.Arrives req])), foldl_snoc.
  set (s1 := foldl Daemon.serve (Daemon.listening clock) events).
  set (s2 := Daemon.serve s1 (Daemon.Arrives req)).
  intros Halive2.
  assert (Daemon.exited (Daemon.process s1) = None) as Halive1
    by exact (alive_before s1 [Daemon.Arrives req] Halive2).
  destruct (listening_keeps_timer clock events Halive1)
    as (handle & deadline & Ht & He & _).
  fold s1 in Ht, He.
  assert (Daemon.timers (Daemon.process s2)
          = [(Daemon.next_timer (Daemon.process s1), Daemon.now (Daemon.process s2) + 10000)])
    as Ht2.
  { unfold s2, Daemon.serve. rewrite Halive1, settle_process.
    destruct (requestListener_process req (Daemon.process s1))
      as (p' & -> & Htimers & _ & Hnow & _).
    rewrite Htimers, Hnow.
    apply resetExitTimeout_timers. right. eauto. }
  destruct (run_without_arrivals s2 _ _ later Hquiet Halive2 Ht2)
    as [(Hlt & Halive & _) | (Hge & Hdead)]; [lia | |].
  - unfold Daemon.serve_all in Halive. rewrite Halive.
    rewrite bool_decide_eq_false_2 by lia. done.
  - unfold Daemon.serve_all in Hdead. rewrite Hdead.
    rewrite bool_decide_eq_true_2 by lia. done.
Qed.

(** ** Start-up *)

(** X21. With an IPC channel, [start] sends its parent exactly one
    message, [ready] when the port is listening and [error] otherwise,
    sets the exit code to 1 only in the second case, arms the exit timer
    only in the first, and disconnects the channel in both. Without a
    channel nothing is sent and [start] fails at the disconnect, with the
    exit timer armed all the same when the port is listening. *)
Theorem start_reports_once outcome p :
  Daemon.timers p = [] →
  Daemon.exitTimeout p = None →
  let p' := Daemon.process_of (Daemon.start outcome p) in
  Daemon.start outcome p = (if Daemon.ipc p then Daemon.Fulfilled p' else Daemon.Failed p')
  ∧ Daemon.ipc p' = false
  ∧ Daemon.sent p'
    = Daemon.sent p
      ++ (if Daemon.ipc p
          then [match outcome with
                | Daemon.Listening => Daemon.Ready
                | Daemon.ListenFailed error => Daemon.Error error
                end]
          else [])
  ∧ Daemon.exitCode p'
    = match outcome with
      | Daemon.Listening => Daemon.exitCode p
      | Daemon.ListenFailed _ => Some 1
      end
  ∧ Daemon.timers p'
    = match outcome with
      | Daemon.Listening => [(Daemon.next_timer p, Daemon.now p + 10000)]
      | Daemon.ListenFailed _ => []
      end
  ∧ Daemon.workers p' = Daemon.workers p.
Proof.
  intros Htimers Hexit.
  destruct p as [registry bound handle pending next clock dead code out channel].
  cbn in Htimers, Hexit. subst pending handle.
  destruct outcome as [| error], channel; cbn; rewrite ?app_nil_r; done.
Qed.

Lemma loaded_daemon_start_fails_without_channel :
  Daemon.start Daemon.Listening (Daemon.loaded 0 false)
  = Daemon.Failed (Daemon.process_of (Daemon.start Daemon.Listening (Daemon.loaded 0 false)))
  ∧ Daemon.timers (Daemon.process_of (Daemon.start Daemon.Listening (Daemon.loaded 0 false)))
    = [(0%nat, 10000)].
Proof.
  destruct (start_reports_once Daemon.Listening (Daemon.loaded 0 false))
    as (Hstart & _ & _ & _ & Htimers & _); [reflexivity | reflexivity |].
  split; [exact Hstart | exact Htimers].
Defined.

(** ** Worked requests *)


Lemma bad_body_registers_nothing :
  Daemon.responses
    (Daemon.serve_all (Daemon.listening 0)
       [Daemon.Arrives {| Daemon.method := Some "POST";
                          Daemon.pathname := Some "/workers/api/" |};
        Daemon.BodyRead 0 None])
  = [].
Proof.
  apply (post_with_bad_body_is_dropped (Daemon.listening 0) "/workers/api/" "api");
    reflexivity.
Defined.

Lemma register_and_unregister :
  Daemon.workers
    (Daemon.process
       (Daemon.serve_all (Daemon.listening 0)
          [Daemon.Arrives {| Daemon.method := Some "POST";
                             Daemon.pathname := Some "/workers/api" |};
           Daemon.BodyRead 0 (Some Daemon.JNull);
           Daemon.Arrives {| Daemon.method := Some "DELETE";
                             Daemon.pathname := Some "/workers/api" |}]))
  = Daemon.empty_object.
Proof.
  destruct (delete_unregisters (Daemon.listening 0) "/workers/api" "api" Daemon.JNull)
    as (_ & _ & _ & _ & Hplain); [reflexivity | reflexivity |].
  destruct Hplain as (_ & Hsame); [discriminate |].
  apply Hsame. reflexivity.
Defined.

Lemma delete_without_slash_is_not_found :
  Daemon.responses
    (Daemon.serve (Daemon.listening 0)
       (Daemon.Arrives {| Daemon.method := Some "DELETE";
                          Daemon.pathname := Some "/workers" |}))
  = [Daemon.notFoundResponse].
Proof.
  apply (delete_all_needs_slash (Daemon.listening 0)). reflexivity.
Defined.

Lemma put_is_not_found :
  Daemon.responses
    (Daemon.serve (Daemon.listening 0)
       (Daemon.Arrives {| Daemon.method := Some "PUT";
                          Daemon.pathname := Some "/workers/api" |}))
  = [Daemon.notFoundResponse].
Proof.
  apply (unknown_route_is_not_found (Daemon.listening 0)
           {| Daemon.method := Some "PUT"; Daemon.pathname := Some "/workers/api" |}
           "/workers/api"); [reflexivity | reflexivity |].
  right. repeat split; discriminate.
Defined.

Lemma proto_post_on_new_registry :
  Daemon.own
    (Daemon.workers
       (Daemon.process
          (Daemon.serve_all (Daemon.listening 0)
             [Daemon.Arrives {| Daemon.method := Some "POST";
                                Daemon.pathname := Some "/workers/__proto__" |};
              Daemon.BodyRead 0 (Some (Daemon.JObject [("port", Daemon.JNumber 1)]))])))
  = ∅.
Proof.
  apply (proto_is_never_registered (Daemon.listening 0)
           (Daemon.JObject [("port", Daemon.JNumber 1)])); reflexivity.
Defined.

Lemma body_after_clear :
  Daemon.workers
    (Daemon.process
       (Daemon.serve_all (Daemon.listening 0)
          [Daemon.Arrives {| Daemon.method := Some "POST";
                             Daemon.pathname := Some "/workers/api" |};
           Daemon.Arrives {| Daemon.method := Some "DELETE";
                             Daemon.pathname := Some "/workers/" |};
           Daemon.BodyRead 0 (Some Daemon.JNull)]))
  = Daemon.empty_object.
Proof.
  apply (late_body_misses_new_registry (Daemon.listening 0) "/workers/api" "api"
           Daemon.JNull); reflexivity.
Defined.

Lemma live_daemon_has_one_timer :
  Daemon.one_exit_timer
    (Daemon.process
       (Daemon.serve_all (Daemon.listening 0)
          [Daemon.Elapses 4000;
           Daemon.Arrives {| Daemon.method := Some "GET";
                             Daemon.pathname := Some "/workers" |}])).
Proof.
  apply (one_exit_timer_pending 0
           [Daemon.Elapses 4000;
            Daemon.Arrives {| Daemon.method := Some "GET";
                              Daemon.pathname := Some "/workers" |}]).
  - repeat constructor.
  - reflexivity.
Defined.

Lemma slow_upload_does_not_keep_alive :
  Daemon.exited
    (Daemon.process
       (Daemon.serve_all (Daemon.listening 0)
          [Daemon.Arrives {| Daemon.method := Some "POST";
                             Daemon.pathname := Some "/workers/api" |};
           Daemon.Elapses 6000;
           Daemon.BodyRead 0 (Some Daemon.JNull);
           Daemon.Elapses 4000]))
  = Some 0.
Proof.
  apply (exits_ten_seconds_after_last_request 0 []
           {| Daemon.method := Some "POST"; Daemon.pathname := Some "/workers/api" |}
           [Daemon.Elapses 6000; Daemon.BodyRead 0 (Some Daemon.JNull);
            Daemon.Elapses 4000]);
    [repeat constructor | repeat constructor | reflexivity].
Defined.

(** * [init] at a terminal status *)

Lemma poll_identity md w :
  accountId (this (poll md w)) = accountId (this w)
  ∧ instanceId (this (poll md w)) = instanceId (this w)
  ∧ workflowName (this (poll md w)) = workflowName (this w).
Proof. unfold poll, bind_queue. by destruct (priorityQueue (this w)). Qed.

Lemma poll_added_calls md w :
  workflow_calls (added (history w) (history (poll md w))) = [].
Proof.
  destruct (poll_history md w) as (built & Hbuilt & ->).
  rewrite added_app. by destruct Hbuilt as [-> | ->].
Qed.

(** C4. From a terminal status [init] returns at once with no result,
    without calling the user workflow and without writing a status, a log
    entry or the metadata slot: status, log and guard are as before. It is
    not free of effects: it has polled the timer queue (bound one if there
    was none, deleted the due rows, set the alarm to the least remaining
    timestamp), and, when the guard was not set, it has overwritten the
    account, instance and workflow names with those of its arguments. *)
Theorem terminal_init_keeps_status_and_logs a wf v i ev w :
  is_terminal (status (this w)) = true →
  let md := metadata_of a wf v i ev in
  let w' := if isRunning (this w) then poll md w else adopt md (poll md w) in
  init a wf v i ev w = Ret (Normal None) w'
  ∧ status (this w') = status (this w)
  ∧ logs (this w') = logs (this w)
  ∧ isRunning (this w') = isRunning (this w)
  ∧ kv (ctx w') = kv (ctx w)
  ∧ workflow_calls (added (history w) (history w')) = []
  ∧ status_writes (added (history w) (history w')) = []
  ∧ metadata_writes (added (history w) (history w')) = []
  ∧ priorityQueue (this w')
    = Some (default {| TimePriorityQueue.bound := md |} (priorityQueue (this w)))
  ∧ priority_queue (ctx w')
    = Sql.delete (TimePriorityQueue.due (now w)) (priority_queue (ctx w))
  ∧ alarm (ctx w') = TimePriorityQueue.min_timestamp (priority_queue (ctx w'))
  ∧ (accountId (this w'), instanceId (this w'), workflowName (this w'))
    = if isRunning (this w)
      then (accountId (this w), instanceId (this w), workflowName (this w))
      else (Some a, Some (DatabaseInstance.name i), Some (DatabaseWorkflow.name wf)).
Proof.
  intros Hterm md. cbn zeta.
  destruct (poll_this md w) as (Hlogs & Hst & Hguard).
  destruct (poll_quiet md w) as (Hputs & Hwrites).
  destruct (poll_table md w) as (Htable & Halarm).
  destruct (poll_identity md w) as (Hacc & Hinst & Hname).
  pose proof (poll_kv md w) as Hkv.
  pose proof (poll_added_calls md w) as Hcalls.
  pose proof (poll_queue md w) as Hqueue.
  destruct (isRunning (this w)) eqn:Hrun.
  - rewrite init_running by done. fold md.
    rewrite Halarm, Htable, Hacc, Hinst, Hname. done.
  - rewrite init_terminal by done. fold md.
    change (status (this (adopt md (poll md w)))) with (status (this (poll md w))).
    change (logs (this (adopt md (poll md w)))) with (logs (this (poll md w))).
    change (isRunning (this (adopt md (poll md w))))
      with (isRunning (this (poll md w))).
    change (ctx (adopt md (poll md w))) with (ctx (poll md w)).
    change (history (adopt md (poll md w))) with (history (poll md w)).
    change (priorityQueue (this (adopt md (poll md w))))
      with (priorityQueue (this (poll md w))).
    rewrite Halarm, Htable. done.
Qed.

Lemma finished_engine_init :
  is_terminal (status (this finished)) = true
  ∧ init 1 wf1 ver1 inst1 ev1 finished
    = Ret (Normal None)
        (adopt (metadata_of 1 wf1 ver1 inst1 ev1)
           (poll (metadata_of 1 wf1 ver1 inst1 ev1) finished))
  ∧ status (this (adopt (metadata_of 1 wf1 ver1 inst1 ev1)
                    (poll (metadata_of 1 wf1 ver1 inst1 ev1) finished)))
    = Complete.
Proof.
  split; [reflexivity |].
  destruct (terminal_init_keeps_status_and_logs 1 wf1 ver1 inst1 ev1 finished)
    as (Hinit & Hst & _); [reflexivity |].
  split; [exact Hinit | exact Hst].
Defined.

(** A finished engine is not left as it was by [init]: called for another
    instance, with one timer due, [init] takes over the other instance's
    names, deletes the due row and sets the alarm. *)
Lemma terminal_init_has_side_effects :
  status (this finished_overdue) = Complete
  ∧ isRunning (this finished_overdue) = false
  ∧ completion_of (init 2 wf1 ver1 inst2 ev1 finished_overdue) = Some (Normal None)
  ∧ world_of (init 2 wf1 ver1 inst2 ev1 finished_overdue) ≠ finished_overdue
  ∧ (accountId (this finished_overdue), instanceId (this finished_overdue))
    = (Some 1, Some "run-1")
  ∧ (accountId (this (world_of (init 2 wf1 ver1 inst2 ev1 finished_overdue))),
     instanceId (this (world_of (init 2 wf1 ver1 inst2 ev1 finished_overdue))))
    = (Some 2, Some "run-2")
  ∧ Row.hash <$> priority_queue (ctx finished_overdue) = ["sleep-1"; "sleep-2"]
  ∧ Row.hash <$> priority_queue
                   (ctx (world_of (init 2 wf1 ver1 inst2 ev1 finished_overdue)))
    = ["sleep-2"]
  ∧ alarm (ctx finished_overdue) = None
  ∧ alarm (ctx (world_of (init 2 wf1 ver1 inst2 ev1 finished_overdue))) = Some 500.
Proof.
  do 3 (split; [reflexivity |]).
  split.
  { intros Hsame. apply (f_equal (λ w, instanceId (this w))) in Hsame.
    vm_compute in Hsame. discriminate Hsame. }
  repeat split; vm_compute; reflexivity.
Qed.
